(** * The Spotify Web API client: retry policy, error decoder, library batches

    A shallow embedding of the parts of the Go package [spotify] that carry
    the retry transport ([retryTransport.RoundTrip], [retryDuration]), the
    response preprocessing hook ([errorDecoder.ProcessResponse]) and the
    library batch calls ([libraryContains], [modifyLibrary]), together with
    the pieces of the Go standard library these functions call
    ([strconv.ParseInt], [http.Header.Get], [time.Duration]).

    Go packages become modules; code that talks to the network is an
    interaction tree whose events are the calls that leave the package. *)

From Stdlib Require Import ZArith String Ascii List Lia Bool.
From Stdlib Require Import Numbers.DecimalString.
From stdpp Require Import gmap strings.
From ITree Require Import ITree ITreeFacts.
From ITree Require Import Props.Leaf.

Local Open Scope string_scope.
Local Open Scope Z_scope.

(* ===================================================================== *)
(** * Machine integers *)
(* ===================================================================== *)

(** Go's [uint64], [int64] and [byte] arithmetic wraps around; the embedding
    keeps integers in [Z] and writes the wrap out at every operation. *)

Definition wrap_uint64 (z : Z) : Z := z mod 2 ^ 64.

Definition wrap_int64 (z : Z) : Z := (z + 2 ^ 63) mod 2 ^ 64 - 2 ^ 63.

Definition wrap_byte (z : Z) : Z := z mod 256.

(** The numeric value of one byte of a Go string. *)
Definition byte_of (c : ascii) : Z := Z.of_N (N_of_ascii c).

(* ===================================================================== *)
(** * Package strconv *)
(* ===================================================================== *)

Module strconv.

(** [NumError.Err]: the three sentinels [ParseUint] and [ParseInt] can
    report when the base is a valid constant. *)
Inductive NumErr : Type :=
| ErrSyntax
| ErrRange
| errBitSize.

Definition maxUint64 : Z := 2 ^ 64 - 1.

(** [IntSize] on the 64-bit targets the client is built for. *)
Definition IntSize : Z := 64.

(** [lower(c)]: [c | ('x' - 'X')]. *)
Definition lower (c : Z) : Z := Z.lor c 32.

(** The [switch] at the head of the loop body of [ParseUint] with [base0]
    false: the digit a byte stands for, or [None] at the [default] arm. *)
Definition digit (c : Z) : option Z :=
  if (48 <=? c) && (c <=? 57) then Some (wrap_byte (c - 48))
  else if (97 <=? lower c) && (lower c <=? 122)
       then Some (wrap_byte (lower c - 97 + 10))
       else None.

(** The [for _, c := range []byte(s)] loop of [ParseUint], at [base = 10],
    with [n] the accumulator. *)
Fixpoint ParseUint_loop (maxVal : Z) (s : string) (n : Z) : Z * option NumErr :=
  match s with
  | EmptyString => (n, None)
  | String c s' =>
      match digit (byte_of c) with
      | None => (0, Some ErrSyntax)
      | Some d =>
          if d >=? wrap_byte 10 then (0, Some ErrSyntax)
          else if n >=? maxUint64 / 10 + 1 then (maxVal, Some ErrRange)
          else
            let n := wrap_uint64 (n * 10) in
            let n1 := wrap_uint64 (n + d) in
            if (n1 <? n) || (n1 >? maxVal) then (maxVal, Some ErrRange)
            else ParseUint_loop maxVal s' n1
      end
  end.

(** [ParseUint(s, 10, bitSize)].  The base is the constant the client
    passes: the [switch] on the base takes its first arm, [base0] is false
    (so no underscore is accepted and [underscoreOK] is never consulted),
    and [cutoff] is [maxUint64/10 + 1]. *)
Definition ParseUint (s : string) (bitSize : Z) : Z * option NumErr :=
  if String.eqb s "" then (0, Some ErrSyntax)
  else
    let bitSize' := if bitSize =? 0 then IntSize else bitSize in
    if (bitSize' <? 0) || (bitSize' >? 64) then (0, Some errBitSize)
    else
      let maxVal := wrap_uint64 (wrap_uint64 (Z.shiftl 1 bitSize') - 1) in
      ParseUint_loop maxVal s 0.

(** [ParseInt(s, 10, bitSize)]. *)
Definition ParseInt (s : string) (bitSize : Z) : Z * option NumErr :=
  match s with
  | EmptyString => (0, Some ErrSyntax)
  | String c0 rest =>
      let neg := Ascii.eqb c0 "-" in
      let s' := if Ascii.eqb c0 "+" then rest
                else if Ascii.eqb c0 "-" then rest else s in
      let '(un, err) := ParseUint s' bitSize in
      match err with
      | Some ErrSyntax => (0, err)
      | Some errBitSize => (0, err)
      | _ =>
          let bitSize' := if bitSize =? 0 then IntSize else bitSize in
          let cutoff := wrap_uint64 (Z.shiftl 1 (bitSize' - 1)) in
          if negb neg && (un >=? cutoff)
          then (wrap_int64 (cutoff - 1), Some ErrRange)
          else if neg && (un >? cutoff)
          then (wrap_int64 (- wrap_int64 cutoff), Some ErrRange)
          else
            let n := wrap_int64 un in
            let n := if neg then wrap_int64 (- n) else n in
            (n, None)
      end
  end.

End strconv.

(* ===================================================================== *)
(** * Decimal integer literals, as the specification speaks of them *)
(* ===================================================================== *)

(** "Parses as an integer number of seconds": an optional sign followed by
    one or more decimal digits, read in positional notation.  These
    definitions follow the words of the specification, not the code; the
    theorems below compare [strconv.ParseInt] with them. *)

(** The place of a character in a string, counted from [i]. *)
Fixpoint place_in (c : ascii) (s : string) (i : Z) : option Z :=
  match s with
  | EmptyString => None
  | String d s' => if Ascii.eqb c d then Some i else place_in c s' (i + 1)
  end.

(** The value of a decimal digit: its place among the ten digits. *)
Definition digit_of_ascii (c : ascii) : option Z := place_in c "0123456789" 0.

(** The value of a digit string that continues a number read so far. *)
Fixpoint digits_value (s : string) (acc : Z) : option Z :=
  match s with
  | EmptyString => Some acc
  | String c s' =>
      match digit_of_ascii c with
      | Some d => digits_value s' (10 * acc + d)
      | None => None
      end
  end.

Definition unsigned_literal (s : string) : option Z :=
  match s with
  | EmptyString => None
  | _ => digits_value s 0
  end.

Definition decimal_literal (s : string) : option Z :=
  match s with
  | String "+"%char s' => unsigned_literal s'
  | String "-"%char s' => Z.opp <$> unsigned_literal s'
  | _ => unsigned_literal s
  end.

Definition fits_int32 (v : Z) : Prop := - 2 ^ 31 <= v <= 2 ^ 31 - 1.

(* ===================================================================== *)
(** * Package time *)
(* ===================================================================== *)

Module time.

(** [type Duration int64]: a count of nanoseconds. *)
Definition Duration : Type := Z.

Definition Nanosecond : Duration := 1.
Definition Microsecond : Duration := wrap_int64 (1000 * Nanosecond).
Definition Millisecond : Duration := wrap_int64 (1000 * Microsecond).
Definition Second : Duration := wrap_int64 (1000 * Millisecond).

(** The product of two [Duration]s, an [int64] multiplication. *)
Definition mul (a b : Duration) : Duration := wrap_int64 (a * b).

End time.

(* ===================================================================== *)
(** * Error values *)
(* ===================================================================== *)

(** [spotify.Error]: an error returned by the Spotify Web API. *)
Record Error : Type := mkError {
  Message : string;   (* `json:"message"` *)
  Status : Z          (* `json:"status"` *)
}.

(** A value of Go's [error] interface, by dynamic type: the nil interface,
    the message-only errors of [errors.New] and [fmt.Errorf], a
    [spotify.Error], and an error of any other type (its type name and the
    text its [Error] method returns), as transports and readers produce. *)
Inductive error : Type :=
| Nil
| errorString (s : string)
| ErrorValue (e : Error)
| foreignError (typ msg : string).

Definition is_nil (err : error) : bool :=
  match err with Nil => true | _ => false end.

(** [err.Error()]; calling the method on the nil interface panics, which
    is [None] here.  [func (e Error) Error() string { return e.Message }]. *)
Definition error_Error (err : error) : option string :=
  match err with
  | Nil => None
  | errorString s => Some s
  | ErrorValue e => Some (Message e)
  | foreignError _ msg => Some msg
  end.

(* ===================================================================== *)
(** * Package fmt and package strings *)
(* ===================================================================== *)

(** The verb [%d] on an integer: its decimal digits, with a minus sign
    when negative. *)
Definition fmt_d (z : Z) : string := NilEmpty.string_of_int (Z.to_int z).

(** [strings.Join(elems, sep)]. *)
Fixpoint strings_Join (elems : list string) (sep : string) : string :=
  match elems with
  | [] => ""
  | [e] => e
  | e :: rest => (e ++ sep ++ strings_Join rest sep)%string
  end.

(* ===================================================================== *)
(** * Package net/http, imported as stdhttp *)
(* ===================================================================== *)

Module stdhttp.

Definition StatusTooManyRequests : Z := 429.

(** [type Header map[string][]string]; [Response] keeps the status code and
    the header, the two fields the retry transport reads. *)
Record Response : Type := mkResponse {
  StatusCode : Z;
  Header : gmap string (list string)
}.

(** [Header.Get(key)]: the first value stored under the key, or the empty
    string.  [Get] looks the key up in canonical form; the one key the client
    asks for, [Retry-After], is written in that form already, and the keys
    of a received header are stored in it. *)
Definition Header_Get (h : gmap string (list string)) (key : string) : string :=
  match h !! key with
  | Some (v :: _) => v
  | _ => ""
  end.

End stdhttp.

(* ===================================================================== *)
(** * Package github.com/conradludgate/go-http, imported as http *)
(* ===================================================================== *)

Module http.

(** Modelled from the spec: [StatusType] belongs to the go-http package,
    whose source is not part of this repository's files; the decoder
    compares it with [StatusTypeSuccess] only, so the other classes are one
    constructor. *)
Inductive StatusType : Type :=
| StatusTypeSuccess
| StatusTypeOther.

(** Modelled from the spec: [StatusCode.Type] belongs to the go-http
    package as well.  The specification gives the classes the decoder tells
    apart: "2xx = success, all else = failure". *)
Definition StatusCode_Type (code : Z) : StatusType :=
  if (200 <=? code) && (code <=? 299) then StatusTypeSuccess
  else StatusTypeOther.

(** Modelled from the spec: [StatusText] belongs to the go-http package as
    well; the specification calls its result the status code's "standard
    reason phrase".  The table is the one of net/http; a code without a
    standard phrase has the empty text. *)
Definition StatusText (code : Z) : string :=
  match code with
  | 100 => "Continue"
  | 101 => "Switching Protocols"
  | 102 => "Processing"
  | 103 => "Early Hints"
  | 200 => "OK"
  | 201 => "Created"
  | 202 => "Accepted"
  | 203 => "Non-Authoritative Information"
  | 204 => "No Content"
  | 205 => "Reset Content"
  | 206 => "Partial Content"
  | 207 => "Multi-Status"
  | 208 => "Already Reported"
  | 226 => "IM Used"
  | 300 => "Multiple Choices"
  | 301 => "Moved Permanently"
  | 302 => "Found"
  | 303 => "See Other"
  | 304 => "Not Modified"
  | 305 => "Use Proxy"
  | 307 => "Temporary Redirect"
  | 308 => "Permanent Redirect"
  | 400 => "Bad Request"
  | 401 => "Unauthorized"
  | 402 => "Payment Required"
  | 403 => "Forbidden"
  | 404 => "Not Found"
  | 405 => "Method Not Allowed"
  | 406 => "Not Acceptable"
  | 407 => "Proxy Authentication Required"
  | 408 => "Request Timeout"
  | 409 => "Conflict"
  | 410 => "Gone"
  | 411 => "Length Required"
  | 412 => "Precondition Failed"
  | 413 => "Request Entity Too Large"
  | 414 => "Request URI Too Long"
  | 415 => "Unsupported Media Type"
  | 416 => "Requested Range Not Satisfiable"
  | 417 => "Expectation Failed"
  | 418 => "I'm a teapot"
  | 421 => "Misdirected Request"
  | 422 => "Unprocessable Entity"
  | 423 => "Locked"
  | 424 => "Failed Dependency"
  | 425 => "Too Early"
  | 426 => "Upgrade Required"
  | 428 => "Precondition Required"
  | 429 => "Too Many Requests"
  | 431 => "Request Header Fields Too Large"
  | 451 => "Unavailable For Legal Reasons"
  | 500 => "Internal Server Error"
  | 501 => "Not Implemented"
  | 502 => "Bad Gateway"
  | 503 => "Service Unavailable"
  | 504 => "Gateway Timeout"
  | 505 => "HTTP Version Not Supported"
  | 506 => "Variant Also Negotiates"
  | 507 => "Insufficient Storage"
  | 508 => "Loop Detected"
  | 510 => "Not Extended"
  | 511 => "Network Authentication Required"
  | _ => ""
  end.

(** The body of a response as an [io.Reader]: the bytes not read yet, and
    the error the stream ends with ([Nil] when it ends at [io.EOF]). *)
Record Reader : Type := mkReader {
  unread : string;
  failure : error
}.

(** A completed response, as a [PreResponseMiddleware] receives it. *)
Record Response : Type := mkResponse {
  StatusCode : Z;
  Body : Reader
}.

(** [ioutil.ReadAll(resp)]: everything up to the end of the stream, the
    error that ended it ([io.EOF] is not an error for [ReadAll]), and the
    response with its stream consumed. *)
Definition ReadAll (resp : Response) : string * error * Response :=
  (unread (Body resp), failure (Body resp),
   mkResponse (StatusCode resp) (mkReader "" (failure (Body resp)))).

(** The HTTP methods the library calls pick between. *)
Inductive Method : Type := Get | Put | Delete.

(** A request under construction: the method and the request options
    ([http.Path], [http.Param]) the call site gives. *)
Record RequestBuilder : Type := NewRequest {
  method : Method;
  Path : list string;
  Params : list (string * string)
}.

End http.

(* ===================================================================== *)
(** * Package spotify: the retry transport *)
(* ===================================================================== *)

(** [defaultRetryDuration = time.Second * 5]. *)
Definition defaultRetryDuration : time.Duration := time.mul time.Second 5.

(** [retryDuration]: the wait a rate-limited response asks for. *)
Definition retryDuration (resp : stdhttp.Response) : time.Duration :=
  let raw := stdhttp.Header_Get (stdhttp.Header resp) "Retry-After" in
  if String.eqb raw "" then defaultRetryDuration
  else
    let '(seconds, err) := strconv.ParseInt raw 32 in
    match err with
    | Some _ => defaultRetryDuration
    | None => time.mul seconds time.Second
    end.

Section RetryTransport.

(** [*stdhttp.Request]: the transport hands the pointer on and never looks
    inside the request. *)
Context {Request : Type}.

(** What [retryTransport.RoundTrip] does to the world: a round trip through
    the wrapped transport [r.Base], which answers with a response pointer
    ([None] is the nil pointer) and an error; a [time.Sleep]; and the
    run-time panic of a nil pointer dereference. *)
Variant netE : Type -> Type :=
| Base_RoundTrip (req : Request) : netE (option stdhttp.Response * error)
| time_Sleep (d : time.Duration) : netE unit
| nil_dereference : netE Empty_set.

(** One turn of the [for] loop: [inl tt] is [continue], [inr] is
    [return resp, err]. *)
Definition RoundTrip_body (req : Request) (_ : unit)
  : itree netE (unit + option stdhttp.Response * error) :=
  ITree.bind (ITree.trigger (Base_RoundTrip req))
    (fun out : option stdhttp.Response * error =>
       let '(resp, err) := out in
       if is_nil err then
         match resp with
         | None =>
             ITree.bind (ITree.trigger nil_dereference)
               (fun v : Empty_set => match v with end)
         | Some r =>
             if stdhttp.StatusCode r =? stdhttp.StatusTooManyRequests then
               ITree.bind (ITree.trigger (time_Sleep (retryDuration r)))
                 (fun _ : unit => Ret (inl tt))
             else Ret (inr (resp, err))
         end
       else Ret (inr (resp, err))).

(** [retryTransport.RoundTrip]. *)
Definition RoundTrip (req : Request)
  : itree netE (option stdhttp.Response * error) :=
  ITree.iter (RoundTrip_body req) tt.

(** What an observer of the wire and the clock sees. *)
Inductive Observation : Type :=
| Sent (req : Request)
| Slept (d : time.Duration)
| Panicked.

(** Running a tree against a wrapped transport that gives the answers of
    [script] in turn, for at most [fuel] steps: the observations made, and
    the result if the tree returned within them. *)
Fixpoint run_script {R : Type} (fuel : nat) (t : itree netE R)
  (script : list (option stdhttp.Response * error))
  : list Observation * option R :=
  match fuel with
  | O => ([], None)
  | S fuel' =>
      match observe t with
      | RetF r => ([], Some r)
      | TauF t' => run_script fuel' t' script
      | VisF e k =>
          match e in netE X return (X -> itree netE R) -> _ with
          | Base_RoundTrip req => fun k =>
              match script with
              | [] => ([Sent req], None)
              | out :: script' =>
                  let '(obs, r) := run_script fuel' (k out) script' in
                  (Sent req :: obs, r)
              end
          | time_Sleep d => fun k =>
              let '(obs, r) := run_script fuel' (k tt) script in
              (Slept d :: obs, r)
          | nil_dereference => fun _ => ([Panicked], None)
          end k
      end
  end.

End RetryTransport.

Arguments netE : clear implicits.
Arguments Observation : clear implicits.

(* ===================================================================== *)
(** * Package spotify: the error decoder *)
(* ===================================================================== *)

Section ErrorDecoder.

(** [json.NewDecoder(buf).Decode(&e)] for
    [var e struct { E Error `json:"error"` }]: the field [e.E] after the
    call and the error of the call.  The JSON codec is a collaborator of
    the client; the decoder is verified for every codec. *)
Variable json_Decode : string -> Error * error.

(** [errorDecoder.ProcessResponse]: the error handed to the caller, and the
    response as the call leaves it. *)
Definition ProcessResponse (resp : http.Response) : error * http.Response :=
  match http.StatusCode_Type (http.StatusCode resp) with
  | http.StatusTypeSuccess => (Nil, resp)
  | _ =>
      let '(responseBody, err, resp) := http.ReadAll resp in
      if negb (is_nil err) then (err, resp)
      else if Z.of_nat (String.length responseBody) =? 0 then
        (errorString
           ("spotify: HTTP " ++ fmt_d (http.StatusCode resp) ++ ": "
              ++ http.StatusText (http.StatusCode resp) ++ " (body empty)")%string,
         resp)
      else
        let '(e, err) := json_Decode responseBody in
        if negb (is_nil err) then
          (errorString
             ("spotify: couldn't decode error: ("
                ++ fmt_d (Z.of_nat (String.length responseBody)) ++ ") ["
                ++ responseBody ++ "]")%string,
           resp)
        else
          let e :=
            if String.eqb (Message e) "" then
              mkError
                ("spotify: unexpected HTTP " ++ fmt_d (http.StatusCode resp)
                   ++ ": " ++ http.StatusText (http.StatusCode resp)
                   ++ " (empty error)")%string
                (Status e)
            else e in
          (ErrorValue e, resp)
  end.

End ErrorDecoder.

(* ===================================================================== *)
(** * Package spotify: the library batch calls *)
(* ===================================================================== *)

(** [type ID string]. *)
Definition ID : Type := string.

Section Library.

(** [context.Context], handed through to [Send]. *)
Context {Ctx : Type}.

(** [toStringSlice] turns a slice of [ID] into a slice of strings; it is
    declared in a file of the package that is not among the sources, and
    the calls are verified for every such function. *)
Variable toStringSlice : list ID -> list string.

(** The calls that reach the API: [Send(ctx, http.JSON(&result))] with
    [result] a [[]bool], which answers with the decoded slice and an error,
    and [Send(ctx)], which answers with an error. *)
Variant apiE : Type -> Type :=
| Send_JSON_bools (ctx : Ctx) (r : http.RequestBuilder) : apiE (list bool * error)
| Send (ctx : Ctx) (r : http.RequestBuilder) : apiE error.

Definition libraryContains (ctx : Ctx) (typ : string) (ids : list ID)
  : itree apiE (list bool * error) :=
  let l := Z.of_nat (List.length ids) in
  if (l =? 0) || (l >? 50) then
    Ret ([], errorString "spotify: supports 1 to 50 IDs per call")
  else
    ITree.bind
      (ITree.trigger
         (Send_JSON_bools ctx
            (http.NewRequest http.Get ["me"; typ; "contains"]
               [("ids", strings_Join (toStringSlice ids) ",")])))
      (fun out : list bool * error =>
         let '(result, err) := out in
         if negb (is_nil err) then Ret ([], err) else Ret (result, err)).

Definition modifyLibrary (ctx : Ctx) (typ : string) (add : bool) (ids : list ID)
  : itree apiE error :=
  let l := Z.of_nat (List.length ids) in
  if (l =? 0) || (l >? 50) then
    Ret (errorString "spotify: this call supports 1 to 50 IDs per call")
  else
    let method := if add then http.Put else http.Delete in
    ITree.bind
      (ITree.trigger
         (Send ctx
            (http.NewRequest method ["me"; typ]
               [("ids", strings_Join (toStringSlice ids) ",")])))
      (fun err : error =>
         if negb (is_nil err) then Ret err else Ret Nil).

Definition UserHasTracks (ctx : Ctx) (ids : list ID) :=
  libraryContains ctx "tracks" ids.

Definition UserHasAlbums (ctx : Ctx) (ids : list ID) :=
  libraryContains ctx "albums" ids.

Definition AddTracksToLibrary (ctx : Ctx) (ids : list ID) :=
  modifyLibrary ctx "tracks" true ids.

Definition RemoveTracksFromLibrary (ctx : Ctx) (ids : list ID) :=
  modifyLibrary ctx "tracks" false ids.

Definition AddAlbumsToLibrary (ctx : Ctx) (ids : list ID) :=
  modifyLibrary ctx "albums" true ids.

Definition RemoveAlbumsFromLibrary (ctx : Ctx) (ids : list ID) :=
  modifyLibrary ctx "albums" false ids.

End Library.

Arguments apiE : clear implicits.

(* ===================================================================== *)
(** * The pagination cursor *)
(* ===================================================================== *)

Section Pagination.

Context {Ctx : Type}.

(** The element type of a page. *)
Context {T : Type}.

(** Modelled from the spec: the page types and [NextPage] are declared in a
    file of the package that is not among the sources (the example program
    calls [client.NextPage] and compares its error with [ErrNoMorePages]).
    [Page<T>]: "items: ordered sequence of T, total: unsigned integer, limit,
    offset, previousEndpoint: optional URL, nextEndpoint: optional URL". *)
Record Page : Type := mkPage {
  items : list T;
  total : N;
  limit : Z;
  offset : Z;
  previousEndpoint : option string;
  nextEndpoint : option string
}.

(** Modelled from the spec: the "no more pages" condition. *)
Definition ErrNoMorePages : error := errorString "spotify: no more pages".

(** Modelled from the spec: a GET against an endpoint "carrying the same
    authentication context as the original call", answered by the page the
    response decodes into or by the error of the call. *)
Variant pageE : Type -> Type :=
| GET (ctx : Ctx) (endpoint : string) : pageE (Page + error).

(** Modelled from the spec: [advance(page)] "fails with a no more pages
    condition if page.nextEndpoint is absent. Otherwise issues a GET against
    nextEndpoint and decodes the response into a new Page<T>". *)
Definition advance (ctx : Ctx) (page : Page) : itree pageE (Page + error) :=
  match nextEndpoint page with
  | None => Ret (inr ErrNoMorePages)
  | Some endpoint => ITree.trigger (GET ctx endpoint)
  end.

End Pagination.

Arguments Page : clear implicits.
Arguments pageE : clear implicits.

(* ===================================================================== *)
(** * Vocabulary of the statements *)
(* ===================================================================== *)

(** [sub] occurs in [s]. *)
Definition contains (s sub : string) : Prop :=
  exists pre post : string, s = (pre ++ sub ++ post)%string.

(** A response of the wrapped transport makes [RoundTrip] go round again
    when the round trip succeeded with status 429. *)
Definition rate_limited (out : option stdhttp.Response * error) : Prop :=
  exists r, out = (Some r, Nil) /\ stdhttp.StatusCode r = 429.

(** A tree that returns [r] at once: no event happens before the result. *)
Definition returns_at_once {E : Type -> Type} {R : Type}
  (t : itree E R) (r : R) : Prop :=
  eutt eq t (Ret r).

(** A tree whose first act is the event [e], continued by [k]. *)
Definition starts_with {E : Type -> Type} {R X : Type}
  (t : itree E R) (e : E X) (k : X -> itree E R) : Prop :=
  eutt eq t (Vis e k).

(* ===================================================================== *)
(** * Package spotify: the playlist calls *)
(* ===================================================================== *)

(** [fmt.Sprintf("spotify:track:%s", id)]. *)
Definition track_URI (id : ID) : string := ("spotify:track:" ++ id)%string.

(** The loop [for i, id := range trackIDs { URIs[i] = track_URI(id) }],
    entered at index [i]; an index outside the slice is a run-time panic,
    which is [None]. *)
Fixpoint fill_track_URIs (i : nat) (trackIDs : list ID) (URIs : list string)
  : option (list string) :=
  match trackIDs with
  | [] => Some URIs
  | id :: rest =>
      if decide (i < List.length URIs)%nat
      then fill_track_URIs (S i) rest (<[i := track_URI id]> URIs)
      else None
  end.

(** [make([]string, len(trackIDs))] and the loop over it. *)
Definition track_URIs (trackIDs : list ID) : option (list string) :=
  fill_track_URIs 0 trackIDs (replicate (List.length trackIDs) "").

(** [TrackToRemove]: a track and its places in the playlist. *)
Record TrackToRemove : Type := mkTrackToRemove {
  URI : string;              (* `json:"uri"` *)
  Positions : list Z         (* `json:"positions"` *)
}.

(** [NewTrackToRemove]. *)
Definition NewTrackToRemove (trackID : string) (positions : list Z) : TrackToRemove :=
  mkTrackToRemove (track_URI trackID) positions.

(** The [tracks interface{}] handed to [removeTracksFromPlaylist]: a slice
    of [struct { URI string }] or a slice of [TrackToRemove]. *)
Inductive TracksValue : Type :=
| tracks_by_URI (URIs : list string)
| tracks_by_position (tracks : list TrackToRemove).

Section Playlists.

Context {Ctx : Type}.

(** The calls of the playlist functions that reach the API, with the Go
    values handed to the request options: a POST whose JSON body is
    [struct { URIs []string }], a DELETE whose JSON body is
    [struct { Tracks interface{}; SnapshotID string }] (both decode
    [snapshot_id] from the response), a request without a body that
    answers with an error, and a request that decodes into the [[]bool]
    given; and the panic of an index out of range. *)
Variant playlistE : Type -> Type :=
| Post_URIs (ctx : Ctx) (path : list string) (URIs : list string)
    : playlistE (string * error)
| Delete_tracks (ctx : Ctx) (path : list string)
    (Tracks : TracksValue) (SnapshotID : string)
    : playlistE (string * error)
| Send_request (ctx : Ctx) (r : http.RequestBuilder) : playlistE error
| Send_into_bools (ctx : Ctx) (r : http.RequestBuilder) (follows : list bool)
    : playlistE (list bool * error)
| index_out_of_range : playlistE Empty_set.

Definition panic_index {R : Type} : itree playlistE R :=
  ITree.bind (ITree.trigger index_out_of_range)
    (fun v : Empty_set => match v with end).

(** [AddTracksToPlaylist]. *)
Definition AddTracksToPlaylist (ctx : Ctx) (playlistID : ID) (trackIDs : list ID)
  : itree playlistE (string * error) :=
  match track_URIs trackIDs with
  | None => panic_index
  | Some URIs =>
      ITree.bind
        (ITree.trigger (Post_URIs ctx ["playlists"; playlistID; "tracks"] URIs))
        (fun out : string * error =>
           let '(SnapshotID, err) := out in
           if negb (is_nil err) then Ret ("", err) else Ret (SnapshotID, Nil))
  end.

(** [removeTracksFromPlaylist]. *)
Definition removeTracksFromPlaylist (ctx : Ctx) (playlistID : ID)
  (tracks : TracksValue) (snapshotID : string)
  : itree playlistE (string * error) :=
  ITree.bind
    (ITree.trigger
       (Delete_tracks ctx ["playlists"; playlistID; "tracks"] tracks snapshotID))
    (fun out : string * error =>
       let '(SnapshotID, err) := out in
       if negb (is_nil err) then Ret ("", err) else Ret (SnapshotID, err)).

(** [RemoveTracksFromPlaylist]. *)
Definition RemoveTracksFromPlaylist (ctx : Ctx) (playlistID : ID)
  (trackIDs : list ID) : itree playlistE (string * error) :=
  match track_URIs trackIDs with
  | None => panic_index
  | Some URIs => removeTracksFromPlaylist ctx playlistID (tracks_by_URI URIs) ""
  end.

(** [RemoveTracksFromPlaylistOpt]. *)
Definition RemoveTracksFromPlaylistOpt (ctx : Ctx) (playlistID : ID)
  (tracks : list TrackToRemove) (snapshotID : string)
  : itree playlistE (string * error) :=
  removeTracksFromPlaylist ctx playlistID (tracks_by_position tracks) snapshotID.

(** [ReplacePlaylistTracks]. *)
Definition ReplacePlaylistTracks (ctx : Ctx) (playlistID : ID)
  (trackIDs : list ID) : itree playlistE error :=
  match track_URIs trackIDs with
  | None => panic_index
  | Some trackURIs =>
      ITree.trigger
        (Send_request ctx
           (http.NewRequest http.Put ["playlists"; playlistID; "tracks"]
              [("tracks", strings_Join trackURIs ",")]))
  end.

(** [UserFollowsPlaylist]. *)
Definition UserFollowsPlaylist (ctx : Ctx) (playlistID : ID)
  (userIDs : list string) : itree playlistE (list bool * error) :=
  let follows := replicate (List.length userIDs) false in
  ITree.bind
    (ITree.trigger
       (Send_into_bools ctx
          (http.NewRequest http.Put
             ["playlists"; playlistID; "followers"; "contains"]
             [("ids", strings_Join userIDs ",")])
          follows))
    (fun out : list bool * error =>
       let '(follows, err) := out in
       if negb (is_nil err) then Ret ([], err) else Ret (follows, err)).

End Playlists.

Arguments playlistE : clear implicits.

(* ===================================================================== *)
(** * Package spotify: the client, its options and its token *)
(* ===================================================================== *)

Section ClientOptions.

(** [*oauth2.Token]. *)
Context {Token : Type}.

(** A value of [stdhttp.RoundTripper], by dynamic type: the nil interface,
    [stdhttp.DefaultTransport], an [*oauth2.Transport] (with what its
    [Source.Token()] answers), a [retryTransport] around another, and a
    transport of any other type. *)
Inductive RoundTripper : Type :=
| nil_RoundTripper
| DefaultTransport
| oauth2_Transport (Source_Token : option Token * error)
| retryTransport (Base : RoundTripper)
| other_RoundTripper (typ : string).

(** What the options of this package read and write of the go-http client
    behind [Client.http]: the URL set by [http.URLString], the headers
    added by [http.AddHeader], and the transport of the base client read by
    [BaseClient()] and set by [http.BaseClient]. *)
Record Client : Type := mkClient {
  URLString : string;
  AddedHeaders : list (string * string);
  Transport : RoundTripper
}.

(** [type ClientOption func(client *Client)]: the client after the call. *)
Definition ClientOption : Type := Client -> Client.

(** [WithRetry]. *)
Definition WithRetry : ClientOption := fun client =>
  let transport := Transport client in
  let transport :=
    match transport with
    | nil_RoundTripper => DefaultTransport
    | _ => transport
    end in
  mkClient (URLString client) (AddedHeaders client) (retryTransport transport).

(** [WithBaseURL]. *)
Definition WithBaseURL (url : string) : ClientOption := fun client =>
  mkClient url (AddedHeaders client) (Transport client).

(** [WithAcceptLanguage]. *)
Definition WithAcceptLanguage (lang : string) : ClientOption := fun client =>
  mkClient (URLString client)
    (AddedHeaders client ++ [("Accept-Language", lang)])%list
    (Transport client).

(** [New], given the transport of [httpClient]: the options are applied in
    the order they are given. *)
Definition New (httpClient_Transport : RoundTripper) (opts : list ClientOption)
  : Client :=
  fold_left (fun c opt => opt c) opts
    (mkClient "https://api.spotify.com/v1/" [] httpClient_Transport).

(** [Client.Token]. *)
Definition Client_Token (c : Client) : option Token * error :=
  match Transport c with
  | oauth2_Transport (t, err) =>
      if negb (is_nil err) then (None, err) else (t, Nil)
  | _ => (None, errorString "spotify: client not backed by oauth2 transport")
  end.

End ClientOptions.

Arguments RoundTripper : clear implicits.
Arguments Client : clear implicits.
Arguments ClientOption : clear implicits.

(* ===================================================================== *)
(** * Package spotify: new releases *)
(* ===================================================================== *)

Section Browse.

Context {Ctx RequestOption RawMessage SimpleAlbumPage : Type}.

(** [processOptions(opts...).urlParams]: [processOptions] is declared in a
    file of the package that is not among the sources, and the call is
    verified for every such function. *)
Variable urlParams : list RequestOption -> gmap string (list string).

(** [json.Unmarshal(raw, &result)]: [result] after the call, and the error
    of the call. *)
Variable json_Unmarshal : RawMessage -> SimpleAlbumPage * error.

(** The GET that decodes into [map[string]*json.RawMessage] (a member whose
    value is JSON null is a nil pointer, [None]), and the run-time panic of
    a nil pointer dereference. *)
Variant browseE : Type -> Type :=
| Get_JSON_objmap (ctx : Ctx) (path : list string)
    (params : gmap string (list string))
    : browseE (gmap string (option RawMessage) * error)
| nil_pointer_dereference : browseE Empty_set.

(** [NewReleases]. *)
Definition NewReleases (ctx : Ctx) (opts : list RequestOption)
  : itree browseE (option SimpleAlbumPage * error) :=
  ITree.bind
    (ITree.trigger
       (Get_JSON_objmap ctx ["browse"; "new-releases"] (urlParams opts)))
    (fun out : gmap string (option RawMessage) * error =>
       let '(objmap, err) := out in
       if negb (is_nil err) then Ret (None, err)
       else
         match objmap !! "albums" with
         | Some (Some raw) =>
             let '(result, err) := json_Unmarshal raw in
             if negb (is_nil err) then Ret (None, err)
             else Ret (Some result, Nil)
         | _ =>
             ITree.bind (ITree.trigger nil_pointer_dereference)
               (fun v : Empty_set => match v with end)
         end).

End Browse.

Arguments browseE : clear implicits.

(* ===================================================================== *)
(** * More vocabulary of the statements *)
(* ===================================================================== *)

(** The pieces of a string between the occurrences of a separator byte, as
    a reader of a comma-separated parameter cuts it ([strings.Split] with a
    one-byte separator). *)
Fixpoint split_on (sep : ascii) (s : string) : list string :=
  match s with
  | EmptyString => [""]
  | String c s' =>
      if Ascii.eqb c sep then "" :: split_on sep s'
      else
        match split_on sep s' with
        | [] => [String c ""]
        | piece :: pieces => String c piece :: pieces
        end
  end.

(** A string without the separator byte. *)
Fixpoint free_of (sep : ascii) (s : string) : Prop :=
  match s with
  | EmptyString => True
  | String c s' => c <> sep /\ free_of sep s'
  end.

(** What is left of a string after the first [n] bytes. *)
Fixpoint drop_bytes (n : nat) (s : string) : string :=
  match n, s with
  | O, _ => s
  | S n', String _ s' => drop_bytes n' s'
  | S _, EmptyString => ""
  end.

(** The options this package makes. *)
Definition own_option {Token : Type} (opt : ClientOption Token) : Prop :=
  opt = WithRetry \/ (exists url, opt = WithBaseURL url) \/
  (exists lang, opt = WithAcceptLanguage lang).

(** A transport of dynamic type [retryTransport]. *)
Definition is_retryTransport {Token : Type} (t : RoundTripper Token) : bool :=
  match t with
  | retryTransport _ => true
  | _ => false
  end.

(* ===================================================================== *)
(** * Facts about strconv *)
(* ===================================================================== *)

Lemma digit_agrees (c : ascii) :
  match digit_of_ascii c with
  | Some d => strconv.digit (byte_of c) = Some d /\ 0 <= d <= 9
  | None =>
      match strconv.digit (byte_of c) with
      | Some d => (d >=? wrap_byte 10) = true
      | None => True
      end
  end.
Proof.
  destruct c as [[] [] [] [] [] [] [] []]; vm_compute; intuition congruence.
Qed.

Lemma digits_value_ge (s : string) :
  forall acc v, 0 <= acc -> digits_value s acc = Some v -> acc <= v.
Proof.
  induction s as [|c s IH]; intros acc v Hacc H; simpl in H.
  - injection H as <-. lia.
  - pose proof (digit_agrees c) as Hc.
    destruct (digit_of_ascii c) as [d|]; [|discriminate].
    destruct Hc as [_ Hd]. apply IH in H; lia.
Qed.

Lemma wrap_uint64_small (z : Z) : 0 <= z < 2 ^ 64 -> wrap_uint64 z = z.
Proof. intros H. unfold wrap_uint64. apply Z.mod_small. exact H. Qed.

Lemma wrap_int64_small (z : Z) : - 2 ^ 63 <= z < 2 ^ 63 -> wrap_int64 z = z.
Proof.
  intros H. unfold wrap_int64. rewrite Z.mod_small; lia.
Qed.

(** The loop of [ParseUint] at 32 bits reads a digit string in positional
    notation and stops with [ErrRange] as soon as the value leaves the
    unsigned 32-bit range; any other byte stops it with an error too. *)
Lemma ParseUint_loop_32 (s : string) :
  forall n, 0 <= n <= 4294967295 ->
  match digits_value s n with
  | Some v =>
      strconv.ParseUint_loop 4294967295 s n =
      if v <=? 4294967295 then (v, None)
      else (4294967295, Some strconv.ErrRange)
  | None =>
      strconv.ParseUint_loop 4294967295 s n = (0, Some strconv.ErrSyntax) \/
      strconv.ParseUint_loop 4294967295 s n = (4294967295, Some strconv.ErrRange)
  end.
Proof.
  induction s as [|c s IH]; intros n Hn; simpl.
  - destruct (Z.leb_spec n 4294967295); [reflexivity | lia].
  - pose proof (digit_agrees c) as Hc.
    destruct (digit_of_ascii c) as [d|].
    + destruct Hc as [-> Hd].
      change (wrap_byte 10) with 10.
      change (strconv.maxUint64 / 10 + 1) with 1844674407370955162.
      destruct (Z.geb_spec d 10) as [?|_]; [lia|].
      destruct (Z.geb_spec n 1844674407370955162) as [?|_]; [lia|].
      rewrite (wrap_uint64_small (n * 10)) by lia.
      rewrite (wrap_uint64_small (n * 10 + d)) by lia.
      destruct (Z.ltb_spec (n * 10 + d) (n * 10)) as [?|_]; [lia|].
      replace (10 * n + d) with (n * 10 + d) by lia.
      simpl orb.
      destruct (Z.gtb_spec (n * 10 + d) 4294967295) as [Hbig|Hsmall].
      * destruct (digits_value s (n * 10 + d)) as [v|] eqn:Hv; [|now right].
        apply digits_value_ge in Hv; [|lia].
        destruct (Z.leb_spec v 4294967295); [lia | reflexivity].
      * apply IH. lia.
    + destruct (strconv.digit (byte_of c)) as [d|]; [|now left].
      rewrite Hc. now left.
Qed.

Lemma ParseUint_32 (s : string) :
  s <> "" -> strconv.ParseUint s 32 = strconv.ParseUint_loop 4294967295 s 0.
Proof.
  intros Hs. unfold strconv.ParseUint.
  destruct (String.eqb_spec s "") as [?|_]; [contradiction | reflexivity].
Qed.

(** [ParseUint] at 32 bits against the unsigned literals of the
    specification. *)
Lemma ParseUint_32_spec (s : string) :
  match unsigned_literal s with
  | Some v =>
      strconv.ParseUint s 32 =
      if v <=? 4294967295 then (v, None)
      else (4294967295, Some strconv.ErrRange)
  | None =>
      strconv.ParseUint s 32 = (0, Some strconv.ErrSyntax) \/
      strconv.ParseUint s 32 = (4294967295, Some strconv.ErrRange)
  end.
Proof.
  destruct s as [|c s]; [now left|].
  rewrite ParseUint_32 by discriminate.
  unfold unsigned_literal. apply ParseUint_loop_32. lia.
Qed.

Lemma unsigned_literal_nonneg (s : string) (v : Z) :
  unsigned_literal s = Some v -> 0 <= v.
Proof.
  destruct s as [|c s]; [discriminate|].
  unfold unsigned_literal. intros H. apply digits_value_ge in H; lia.
Qed.

Lemma decimal_literal_plus (s : string) :
  decimal_literal (String "+" s) = unsigned_literal s.
Proof. reflexivity. Qed.

Lemma decimal_literal_minus (s : string) :
  decimal_literal (String "-" s) = Z.opp <$> unsigned_literal s.
Proof. reflexivity. Qed.

Lemma decimal_literal_unsigned (c : ascii) (s : string) :
  Ascii.eqb c "+" = false -> Ascii.eqb c "-" = false ->
  decimal_literal (String c s) = unsigned_literal (String c s).
Proof.
  destruct c as [[] [] [] [] [] [] [] []]; intros Hp Hm;
    try reflexivity; discriminate.
Qed.

(** The tail of [ParseInt] after [ParseUint] has answered: the sign and
    the 32-bit cutoff. *)
Lemma ParseInt_32_unfold (c : ascii) (rest : string) :
  strconv.ParseInt (String c rest) 32 =
  let neg := Ascii.eqb c "-" in
  let s' := if Ascii.eqb c "+" then rest
            else if Ascii.eqb c "-" then rest else String c rest in
  let '(un, err) := strconv.ParseUint s' 32 in
  match err with
  | Some strconv.ErrSyntax => (0, err)
  | Some strconv.errBitSize => (0, err)
  | _ =>
      if negb neg && (un >=? 2147483648)
      then (2147483647, Some strconv.ErrRange)
      else if neg && (un >? 2147483648)
      then (-2147483648, Some strconv.ErrRange)
      else (let n := wrap_int64 un in if neg then wrap_int64 (- n) else n, None)
  end.
Proof. reflexivity. Qed.

(** [ParseInt(s, 10, 32)] accepts exactly the decimal literals whose value
    fits a signed 32-bit integer, and returns that value. *)
Lemma ParseInt_32_spec (s : string) :
  match decimal_literal s with
  | Some v =>
      if (-2147483648 <=? v) && (v <=? 2147483647)
      then strconv.ParseInt s 32 = (v, None)
      else exists u, strconv.ParseInt s 32 = (u, Some strconv.ErrRange)
  | None => exists u e, strconv.ParseInt s 32 = (u, Some e)
  end.
Proof.
  destruct s as [|c rest]; [simpl; eauto|].
  rewrite ParseInt_32_unfold.
  destruct (Ascii.eqb c "+") eqn:Hplus.
  - apply Ascii.eqb_eq in Hplus. subst c.
    rewrite decimal_literal_plus.
    change (Ascii.eqb "+" "-") with false.
    cbv beta iota zeta.
    pose proof (ParseUint_32_spec rest) as HU.
    pose proof (unsigned_literal_nonneg rest) as Hnn.
    destruct (unsigned_literal rest) as [v|].
    + specialize (Hnn v eq_refl). rewrite HU.
      destruct (Z.leb_spec v 4294967295).
      * destruct (Z.geb_spec v 2147483648);
          destruct (Z.leb_spec (-2147483648) v); try lia;
          destruct (Z.leb_spec v 2147483647); try lia; simpl; eauto.
        rewrite wrap_int64_small by lia. reflexivity.
      * simpl. destruct (Z.leb_spec (-2147483648) v); try lia.
        destruct (Z.leb_spec v 2147483647); try lia. simpl; eauto.
    + destruct HU as [-> | ->]; simpl; eauto.
  - destruct (Ascii.eqb c "-") eqn:Hminus.
    + apply Ascii.eqb_eq in Hminus. subst c.
      rewrite decimal_literal_minus.
      cbv beta iota zeta.
      pose proof (ParseUint_32_spec rest) as HU.
      pose proof (unsigned_literal_nonneg rest) as Hnn.
      destruct (unsigned_literal rest) as [v|]; simpl.
      * specialize (Hnn v eq_refl). rewrite HU.
        destruct (Z.leb_spec v 4294967295).
        -- destruct (Z.gtb_spec v 2147483648);
             destruct (Z.leb_spec (-2147483648) (- v)); try lia;
             destruct (Z.leb_spec (- v) 2147483647); try lia; simpl; eauto.
           rewrite (wrap_int64_small v) by lia.
           rewrite wrap_int64_small by lia. reflexivity.
        -- simpl. destruct (Z.leb_spec (-2147483648) (- v)); try lia.
           simpl; eauto.
      * destruct HU as [-> | ->]; simpl; eauto.
    + rewrite decimal_literal_unsigned by assumption.
      cbv beta iota zeta.
      pose proof (ParseUint_32_spec (String c rest)) as HU.
      pose proof (unsigned_literal_nonneg (String c rest)) as Hnn.
      destruct (unsigned_literal (String c rest)) as [v|].
      * specialize (Hnn v eq_refl). rewrite HU.
        destruct (Z.leb_spec v 4294967295).
        -- destruct (Z.geb_spec v 2147483648);
             destruct (Z.leb_spec (-2147483648) v); try lia;
             destruct (Z.leb_spec v 2147483647); try lia; simpl; eauto.
           rewrite wrap_int64_small by lia. reflexivity.
        -- simpl. destruct (Z.leb_spec (-2147483648) v); try lia.
           destruct (Z.leb_spec v 2147483647); try lia. simpl; eauto.
      * destruct HU as [-> | ->]; simpl; eauto.
Qed.

(* ===================================================================== *)
(** * Facts about the retry transport *)
(* ===================================================================== *)

Section RetryTransportFacts.

Context {Request : Type}.

Implicit Types (req : Request) (r : stdhttp.Response).

(** One unfolding of the loop: [RoundTrip] first sends the request through
    the wrapped transport; what follows depends on the answer alone. *)
Lemma RoundTrip_first_step req :
  exists k : option stdhttp.Response * error ->
             itree (netE Request) (option stdhttp.Response * error),
    eutt eq (RoundTrip req) (Vis (Base_RoundTrip req) k) /\
    (forall r, stdhttp.StatusCode r = 429 ->
       eutt eq (k (Some r, Nil))
         (Vis (time_Sleep (retryDuration r)) (fun _ => RoundTrip req))) /\
    (forall r, stdhttp.StatusCode r <> 429 ->
       eutt eq (k (Some r, Nil)) (Ret (Some r, Nil))) /\
    (forall resp err, err <> Nil -> eutt eq (k (resp, err)) (Ret (resp, err))).
Proof.
  eexists. split; [|split; [|split]].
  - unfold RoundTrip. rewrite unfold_iter. unfold RoundTrip_body at 1.
    rewrite bind_bind, bind_trigger. reflexivity.
  - intros r Hr. cbn. unfold stdhttp.StatusTooManyRequests. rewrite Hr. cbn.
    rewrite bind_bind, bind_trigger.
    apply eqit_Vis. intros []. rewrite bind_ret_l, tau_eutt. reflexivity.
  - intros r Hr. cbn. unfold stdhttp.StatusTooManyRequests.
    destruct (Z.eqb_spec (stdhttp.StatusCode r) 429) as [?|_]; [contradiction|].
    rewrite bind_ret_l. reflexivity.
  - intros resp err Herr. cbn.
    destruct err; [contradiction| | |]; cbn; rewrite bind_ret_l; reflexivity.
Qed.

(** A rate-limited answer is followed by a sleep of [retryDuration] and
    then by the same request, sent through the wrapped transport again. *)
Lemma RoundTrip_retries req r :
  stdhttp.StatusCode r = 429 ->
  exists k,
    starts_with (RoundTrip req) (Base_RoundTrip req) k /\
    eutt eq (k (Some r, Nil))
      (Vis (time_Sleep (retryDuration r)) (fun _ => Vis (Base_RoundTrip req) k)).
Proof.
  intros Hr. destruct (RoundTrip_first_step req) as (k & Hk & Hretry & _).
  exists k. split; [exact Hk|].
  rewrite (Hretry r Hr). apply eqit_Vis. intros _. exact Hk.
Qed.

(** Any other answer is returned as it is. *)
Lemma RoundTrip_returns req (out : option stdhttp.Response * error) :
  ~ rate_limited out -> out <> (None, Nil) ->
  exists k,
    starts_with (RoundTrip req) (Base_RoundTrip req) k /\
    returns_at_once (k out) out.
Proof.
  intros Hnot Hptr.
  destruct (RoundTrip_first_step req) as (k & Hk & _ & Hother & Herr).
  exists k. split; [exact Hk|]. unfold returns_at_once.
  destruct out as [resp err]. destruct (is_nil err) eqn:Hnil.
  - destruct err; try discriminate. destruct resp as [r|]; [|contradiction].
    apply Hother. intros H429. apply Hnot. exists r. split; [reflexivity|exact H429].
  - apply Herr. intros ->. discriminate.
Qed.

End RetryTransportFacts.

(* ===================================================================== *)
(** * Facts about retryDuration *)
(* ===================================================================== *)

Lemma Second_value : time.Second = 1000000000.
Proof. reflexivity. Qed.

Lemma defaultRetryDuration_value : defaultRetryDuration = 5 * time.Second.
Proof. reflexivity. Qed.

(** [retryDuration] in the terms of the specification: the seconds of a
    decimal literal that fits 32 bits, the fallback otherwise. *)
Lemma retryDuration_spec (r : stdhttp.Response) :
  retryDuration r =
  match decimal_literal (stdhttp.Header_Get (stdhttp.Header r) "Retry-After") with
  | Some v =>
      if (-2147483648 <=? v) && (v <=? 2147483647) then v * time.Second
      else 5 * time.Second
  | None => 5 * time.Second
  end.
Proof.
  unfold retryDuration.
  set (raw := stdhttp.Header_Get (stdhttp.Header r) "Retry-After").
  destruct (String.eqb_spec raw "") as [->|_]; [reflexivity|].
  pose proof (ParseInt_32_spec raw) as HP.
  destruct (decimal_literal raw) as [v|].
  - destruct (Z.leb_spec (-2147483648) v); simpl in HP |- *.
    + destruct (Z.leb_spec v 2147483647).
      * rewrite HP. unfold time.mul. rewrite Second_value.
        apply wrap_int64_small. lia.
      * destruct HP as [u ->]. reflexivity.
    + destruct HP as [u ->]. reflexivity.
  - destruct HP as (u & e & ->). reflexivity.
Qed.

Lemma Header_Get_absent (h : gmap string (list string)) (key : string) :
  h !! key = None -> stdhttp.Header_Get h key = "".
Proof. intros H. unfold stdhttp.Header_Get. rewrite H. reflexivity. Qed.

(* ===================================================================== *)
(** * The retry policy *)
(* ===================================================================== *)

(** Runs of the retry transport against wrapped transports that answer
    from a script: a rate-limited response and then a 200; two rate-limited
    responses, the second with a header that is no number; an error of the
    transport. *)
Lemma example_runs :
  let limited v := (Some (stdhttp.mkResponse 429 (<["Retry-After" := [v]]> ∅)), Nil) in
  let ok := (Some (stdhttp.mkResponse 200 ∅), Nil) in
  run_script 10 (RoundTrip tt) [limited "2"; ok]
    = ([Sent tt; Slept 2000000000; Sent tt], Some ok) /\
  run_script 10 (RoundTrip tt) [limited "1"; limited "oops"; ok]
    = ([Sent tt; Slept 1000000000; Sent tt; Slept 5000000000; Sent tt], Some ok) /\
  run_script 10 (RoundTrip tt) [(None, foreignError "*net.OpError" "dial tcp: i/o timeout")]
    = ([Sent tt], Some (None, foreignError "*net.OpError" "dial tcp: i/o timeout")).
Proof. vm_compute. repeat split. Qed.

(** C1, as stated, fails: the header [Retry-After: 2147483648] is a
    non-negative integer, and the policy waits five seconds, not
    2147483648. *)
Lemma retry_after_beyond_int32 :
  let resp := stdhttp.mkResponse 429 (<["Retry-After" := ["2147483648"]]> ∅) in
  let ok := (Some (stdhttp.mkResponse 200 ∅), Nil) in
  stdhttp.StatusCode resp = 429 /\
  decimal_literal (stdhttp.Header_Get (stdhttp.Header resp) "Retry-After")
    = Some 2147483648 /\
  0 <= 2147483648 /\
  retryDuration resp = 5 * time.Second /\
  run_script 10 (RoundTrip tt) [(Some resp, Nil); ok]
    = ([Sent tt; Slept (5 * time.Second); Sent tt], Some ok) /\
  5 * time.Second < 2147483648 * time.Second.
Proof. vm_compute. repeat split; discriminate. Qed.

(** C1 (amended): for every response with status 429 whose [Retry-After]
    header is a decimal integer [N] with [0 <= N <= 2147483647], the wait
    computed is exactly [N] seconds, the retry transport sleeps that long
    ([time.Sleep] pauses for at least its argument) and then sends the very
    same request through the wrapped transport again. *)
Theorem retry_after_honoured {Request : Type} (req : Request)
  (r : stdhttp.Response) (N : Z) :
  stdhttp.StatusCode r = 429 ->
  decimal_literal (stdhttp.Header_Get (stdhttp.Header r) "Retry-After") = Some N ->
  0 <= N <= 2147483647 ->
  retryDuration r = N * time.Second /\
  exists k,
    starts_with (RoundTrip req) (Base_RoundTrip req) k /\
    eutt eq (k (Some r, Nil))
      (Vis (time_Sleep (N * time.Second)) (fun _ => Vis (Base_RoundTrip req) k)).
Proof.
  intros H429 Hlit HN.
  assert (Hd : retryDuration r = N * time.Second).
  { rewrite retryDuration_spec, Hlit.
    destruct (Z.leb_spec (-2147483648) N); [|lia].
    destruct (Z.leb_spec N 2147483647); [reflexivity|lia]. }
  split; [exact Hd|]. rewrite <- Hd. apply RoundTrip_retries. exact H429.
Qed.

Lemma retry_after_honoured_witness :
  let r := stdhttp.mkResponse 429 (<["Retry-After" := ["120"]]> ∅) in
  retryDuration r = 120 * time.Second /\
  exists k,
    starts_with (RoundTrip tt) (Base_RoundTrip tt) k /\
    eutt eq (k (Some r, Nil))
      (Vis (time_Sleep (120 * time.Second)) (fun _ => Vis (Base_RoundTrip tt) k)).
Proof.
  apply (retry_after_honoured tt
           (stdhttp.mkResponse 429 (<["Retry-After" := ["120"]]> ∅)) 120).
  - reflexivity.
  - vm_compute. reflexivity.
  - lia.
Defined.

(** C2, as stated, fails: [Retry-After: -5] is not a non-negative integer,
    and the wait is minus five seconds, not the fallback. *)
Lemma retry_after_negative :
  let resp := stdhttp.mkResponse 429 (<["Retry-After" := ["-5"]]> ∅) in
  let ok := (Some (stdhttp.mkResponse 200 ∅), Nil) in
  stdhttp.StatusCode resp = 429 /\
  decimal_literal (stdhttp.Header_Get (stdhttp.Header resp) "Retry-After")
    = Some (-5) /\
  retryDuration resp = -5 * time.Second /\
  retryDuration resp <> defaultRetryDuration /\
  run_script 10 (RoundTrip tt) [(Some resp, Nil); ok]
    = ([Sent tt; Slept (-5 * time.Second); Sent tt], Some ok).
Proof. vm_compute. repeat split; discriminate. Qed.

(** C2 (amended): for every response with status 429 whose [Retry-After]
    header is absent, or is not a decimal integer (empty or non-numeric),
    or is a negative integer below -2147483648, the wait used before the
    request is sent again is exactly the fallback of five seconds. *)
Theorem retry_fallback {Request : Type} (req : Request) (r : stdhttp.Response) :
  stdhttp.StatusCode r = 429 ->
  stdhttp.Header r !! "Retry-After" = None \/
  decimal_literal (stdhttp.Header_Get (stdhttp.Header r) "Retry-After") = None \/
  (exists v,
     decimal_literal (stdhttp.Header_Get (stdhttp.Header r) "Retry-After") = Some v /\
     v < -2147483648) ->
  defaultRetryDuration = 5 * time.Second /\
  retryDuration r = defaultRetryDuration /\
  exists k,
    starts_with (RoundTrip req) (Base_RoundTrip req) k /\
    eutt eq (k (Some r, Nil))
      (Vis (time_Sleep (5 * time.Second)) (fun _ => Vis (Base_RoundTrip req) k)).
Proof.
  intros H429 Hcases.
  assert (Hd : retryDuration r = 5 * time.Second).
  { rewrite retryDuration_spec. destruct Hcases as [Habs | [Hnone | (v & Hv & Hlow)]].
    - rewrite (Header_Get_absent _ _ Habs). reflexivity.
    - rewrite Hnone. reflexivity.
    - rewrite Hv. destruct (Z.leb_spec (-2147483648) v); [lia|reflexivity]. }
  split; [reflexivity|]. split; [exact Hd|].
  rewrite <- Hd. apply RoundTrip_retries. exact H429.
Qed.

Lemma retry_fallback_witness :
  let r := stdhttp.mkResponse 429 (<["Retry-After" := ["soon"]]> ∅) in
  defaultRetryDuration = 5 * time.Second /\
  retryDuration r = defaultRetryDuration /\
  exists k,
    starts_with (RoundTrip tt) (Base_RoundTrip tt) k /\
    eutt eq (k (Some r, Nil))
      (Vis (time_Sleep (5 * time.Second)) (fun _ => Vis (Base_RoundTrip tt) k)).
Proof.
  apply (retry_fallback tt (stdhttp.mkResponse 429 (<["Retry-After" := ["soon"]]> ∅))).
  - reflexivity.
  - right. left. vm_compute. reflexivity.
Defined.

(** C10: for every response with status 429 whose [Retry-After] header is a
    decimal integer outside the signed 32-bit range, the wait computed is
    the fallback of five seconds and not the number of seconds of the
    header: [strconv.ParseInt] is called with a bit size of 32 and reports
    a range error.  The header [2147483648] is such a one. *)
Theorem retry_after_out_of_range {Request : Type} (req : Request)
  (r : stdhttp.Response) (v : Z) :
  stdhttp.StatusCode r = 429 ->
  decimal_literal (stdhttp.Header_Get (stdhttp.Header r) "Retry-After") = Some v ->
  ~ fits_int32 v ->
  (exists u, strconv.ParseInt (stdhttp.Header_Get (stdhttp.Header r) "Retry-After") 32
             = (u, Some strconv.ErrRange)) /\
  retryDuration r = 5 * time.Second /\
  retryDuration r <> v * time.Second /\
  exists k,
    starts_with (RoundTrip req) (Base_RoundTrip req) k /\
    eutt eq (k (Some r, Nil))
      (Vis (time_Sleep (5 * time.Second)) (fun _ => Vis (Base_RoundTrip req) k)).
Proof.
  intros H429 Hlit Hfit. unfold fits_int32 in Hfit.
  assert (Hrange : (-2147483648 <=? v) && (v <=? 2147483647) = false).
  { destruct (Z.leb_spec (-2147483648) v); [|reflexivity].
    destruct (Z.leb_spec v 2147483647); [|reflexivity].
    exfalso. apply Hfit. change (2 ^ 31) with 2147483648. lia. }
  assert (Hd : retryDuration r = 5 * time.Second).
  { rewrite retryDuration_spec, Hlit, Hrange. reflexivity. }
  split.
  { pose proof (ParseInt_32_spec
                  (stdhttp.Header_Get (stdhttp.Header r) "Retry-After")) as HP.
    rewrite Hlit, Hrange in HP. exact HP. }
  split; [exact Hd|]. split.
  { rewrite Hd, Second_value. intros Heq.
    apply Hfit. change (2 ^ 31) with 2147483648. lia. }
  rewrite <- Hd. apply RoundTrip_retries. exact H429.
Qed.

Lemma retry_after_out_of_range_witness :
  let r := stdhttp.mkResponse 429 (<["Retry-After" := ["2147483648"]]> ∅) in
  (exists u, strconv.ParseInt (stdhttp.Header_Get (stdhttp.Header r) "Retry-After") 32
             = (u, Some strconv.ErrRange)) /\
  retryDuration r = 5 * time.Second /\
  retryDuration r <> 2147483648 * time.Second /\
  exists k,
    starts_with (RoundTrip tt) (Base_RoundTrip tt) k /\
    eutt eq (k (Some r, Nil))
      (Vis (time_Sleep (5 * time.Second)) (fun _ => Vis (Base_RoundTrip tt) k)).
Proof.
  apply (retry_after_out_of_range tt
           (stdhttp.mkResponse 429 (<["Retry-After" := ["2147483648"]]> ∅))
           2147483648).
  - reflexivity.
  - vm_compute. reflexivity.
  - unfold fits_int32. lia.
Defined.

(* ===================================================================== *)
(** * Facts about strings *)
(* ===================================================================== *)

Lemma append_cons (x : ascii) (a b : string) :
  (String x a ++ b = String x (a ++ b))%string.
Proof. reflexivity. Qed.

Lemma append_assoc (a b c : string) : ((a ++ b) ++ c = a ++ b ++ c)%string.
Proof.
  induction a as [|x a IH]; [reflexivity|].
  rewrite !append_cons, IH. reflexivity.
Qed.

Lemma length_append (a b : string) :
  String.length (a ++ b) = (String.length a + String.length b)%nat.
Proof.
  induction a as [|x a IH]; [reflexivity|].
  rewrite append_cons. simpl. rewrite IH. reflexivity.
Qed.

Lemma append_cons_not_empty (x : ascii) (a b : string) :
  (String x a ++ b)%string <> "".
Proof. rewrite append_cons. discriminate. Qed.

Lemma length_zero_empty (s : string) :
  (Z.of_nat (String.length s) =? 0) = true <-> s = "".
Proof.
  destruct s as [|c s]; simpl; split; intros H; try reflexivity; discriminate.
Qed.

Lemma contains_middle (pre sub post : string) :
  contains (pre ++ sub ++ post) sub.
Proof. exists pre, post. reflexivity. Qed.

(* ===================================================================== *)
(** * Facts about the error decoder *)
(* ===================================================================== *)

Section ErrorDecoderFacts.

Variable json_Decode : string -> Error * error.

Implicit Types (resp : http.Response).

Lemma StatusCode_Type_success (code : Z) :
  http.StatusCode_Type code = http.StatusTypeSuccess <-> 200 <= code <= 299.
Proof.
  unfold http.StatusCode_Type.
  destruct (Z.leb_spec 200 code) as [Hlo|Hlo];
    destruct (Z.leb_spec code 299) as [Hhi|Hhi]; simpl;
    split; intros Hc; try reflexivity; try discriminate; lia.
Qed.

Lemma ProcessResponse_success resp :
  200 <= http.StatusCode resp <= 299 ->
  ProcessResponse json_Decode resp = (Nil, resp).
Proof.
  intros H. apply StatusCode_Type_success in H.
  unfold ProcessResponse. rewrite H. reflexivity.
Qed.

(** On a failure status the decoder reads the body; what it returns is
    decided by the outcome of the read, the length of the body and the
    outcome of the JSON decoding, in this order. *)
Lemma ProcessResponse_failure resp :
  ~ 200 <= http.StatusCode resp <= 299 ->
  fst (ProcessResponse json_Decode resp) =
  let body := http.unread (http.Body resp) in
  let code := http.StatusCode resp in
  if negb (is_nil (http.failure (http.Body resp))) then http.failure (http.Body resp)
  else if String.eqb body "" then
    errorString ("spotify: HTTP " ++ fmt_d code ++ ": " ++ http.StatusText code
                   ++ " (body empty)")
  else if negb (is_nil (snd (json_Decode body))) then
    errorString ("spotify: couldn't decode error: ("
                   ++ fmt_d (Z.of_nat (String.length body)) ++ ") [" ++ body ++ "]")
  else if String.eqb (Message (fst (json_Decode body))) "" then
    ErrorValue (mkError ("spotify: unexpected HTTP " ++ fmt_d code ++ ": "
                           ++ http.StatusText code ++ " (empty error)")
                  (Status (fst (json_Decode body))))
  else ErrorValue (fst (json_Decode body)).
Proof.
  intros H. unfold ProcessResponse.
  destruct (http.StatusCode_Type (http.StatusCode resp)) eqn:Hty.
  { apply StatusCode_Type_success in Hty. contradiction. }
  cbn. destruct (negb (is_nil (http.failure (http.Body resp)))); [reflexivity|].
  destruct (String.eqb_spec (http.unread (http.Body resp)) "") as [Hempty|Hfull].
  - rewrite Hempty. reflexivity.
  - destruct (Z.eqb_spec (Z.of_nat (String.length (http.unread (http.Body resp)))) 0)
      as [Hz|_].
    { exfalso. apply Hfull. apply length_zero_empty. now apply Z.eqb_eq. }
    destruct (json_Decode (http.unread (http.Body resp))) as [e err]. cbn.
    destruct (negb (is_nil err)); [reflexivity|].
    destruct (String.eqb (Message e) ""); reflexivity.
Qed.

Lemma ProcessResponse_failure_not_nil resp :
  ~ 200 <= http.StatusCode resp <= 299 ->
  fst (ProcessResponse json_Decode resp) <> Nil.
Proof.
  intros H. rewrite (ProcessResponse_failure resp H). cbv zeta.
  destruct (http.failure (http.Body resp)); cbn; try discriminate.
  destruct (String.eqb _ ""); [discriminate|].
  destruct (negb _); [discriminate|].
  destruct (String.eqb _ ""); discriminate.
Qed.

End ErrorDecoderFacts.

(* ===================================================================== *)
(** * The error decoder *)
(* ===================================================================== *)

(** C9: the decoder tells success from failure by the class of the status
    code alone: it returns no error exactly when the code is 2xx, whatever
    the body and the JSON codec; and on success the call does nothing, the
    response (its body unread) is handed on as it came. *)
Theorem decoder_decides_by_status_class
  (json_Decode : string -> Error * error) (resp : http.Response) :
  (http.StatusCode_Type (http.StatusCode resp) = http.StatusTypeSuccess
     <-> 200 <= http.StatusCode resp <= 299) /\
  (fst (ProcessResponse json_Decode resp) = Nil
     <-> http.StatusCode_Type (http.StatusCode resp) = http.StatusTypeSuccess) /\
  (http.StatusCode_Type (http.StatusCode resp) = http.StatusTypeSuccess ->
     ProcessResponse json_Decode resp = (Nil, resp)).
Proof.
  split; [apply StatusCode_Type_success|]. split.
  - rewrite StatusCode_Type_success. split.
    + intros Hnil.
      destruct (Z_le_dec 200 (http.StatusCode resp)) as [Hlo|Hlo];
        [destruct (Z_le_dec (http.StatusCode resp) 299) as [Hhi|Hhi]|];
        [lia| |];
        exfalso; revert Hnil; apply ProcessResponse_failure_not_nil; lia.
    + intros H. rewrite ProcessResponse_success by exact H. reflexivity.
  - intros H. apply ProcessResponse_success. apply StatusCode_Type_success. exact H.
Qed.

(** C4, as stated, fails: when reading the body of a failure response
    fails, the decoder hands on the error of the read as it is, and the
    message of that error can be empty; here a 500 whose body stream ends
    with an error that has no text. *)
Lemma decoder_message_empty_on_read_error :
  let resp := http.mkResponse 500 (http.mkReader "" (errorString "")) in
  (~ 200 <= http.StatusCode resp <= 299) /\
  (forall json_Decode,
     fst (ProcessResponse json_Decode resp) = errorString "" /\
     error_Error (fst (ProcessResponse json_Decode resp)) = Some "").
Proof.
  cbv zeta. split; [simpl; lia|].
  intros dec. rewrite ProcessResponse_failure by (simpl; lia).
  split; reflexivity.
Qed.

(** C4 (amended): for every response with a failure status whose body is
    read to its end without an error of the read, the error handed to the
    caller has a message that is not empty; when the body decodes as an
    envelope with an empty message, the message is the synthesized one,
    with the status code and its reason phrase in it. *)
Theorem decoder_message_not_empty
  (json_Decode : string -> Error * error) (resp : http.Response) :
  ~ 200 <= http.StatusCode resp <= 299 ->
  http.failure (http.Body resp) = Nil ->
  exists msg,
    error_Error (fst (ProcessResponse json_Decode resp)) = Some msg /\
    msg <> "" /\
    (http.unread (http.Body resp) <> "" ->
     snd (json_Decode (http.unread (http.Body resp))) = Nil ->
     Message (fst (json_Decode (http.unread (http.Body resp)))) = "" ->
     msg = ("spotify: unexpected HTTP " ++ fmt_d (http.StatusCode resp) ++ ": "
              ++ http.StatusText (http.StatusCode resp) ++ " (empty error)")%string /\
     contains msg (fmt_d (http.StatusCode resp)) /\
     contains msg (http.StatusText (http.StatusCode resp))).
Proof.
  intros Hfail Hread. rewrite (ProcessResponse_failure json_Decode resp Hfail).
  cbv zeta. rewrite Hread. cbn [is_nil negb].
  destruct (String.eqb_spec (http.unread (http.Body resp)) "") as [Hempty|Hfull].
  { eexists. split; [reflexivity|]. split; [apply append_cons_not_empty|].
    intros Hne. contradiction. }
  destruct (is_nil (snd (json_Decode (http.unread (http.Body resp))))) eqn:Hdec;
    cbn [negb].
  - destruct (String.eqb_spec
                (Message (fst (json_Decode (http.unread (http.Body resp))))) "")
      as [Hmsg|Hmsg].
    + eexists. split; [reflexivity|]. split; [apply append_cons_not_empty|].
      intros _ _ _. split; [reflexivity|]. split; [apply contains_middle|].
      exists ("spotify: unexpected HTTP " ++ fmt_d (http.StatusCode resp) ++ ": ")%string,
        " (empty error)".
      rewrite !append_assoc. reflexivity.
    + eexists. split; [reflexivity|]. split; [exact Hmsg|].
      intros _ _ Hm. contradiction.
  - eexists. split; [reflexivity|]. split; [apply append_cons_not_empty|].
    intros _ Hnil. rewrite Hnil in Hdec. discriminate.
Qed.

Lemma decoder_message_not_empty_witness :
  let dec := fun _ : string => (mkError "" 0, Nil) in
  let resp := http.mkResponse 414 (http.mkReader "{}" Nil) in
  exists msg,
    error_Error (fst (ProcessResponse dec resp)) = Some msg /\
    msg <> "" /\
    (http.unread (http.Body resp) <> "" ->
     snd (dec (http.unread (http.Body resp))) = Nil ->
     Message (fst (dec (http.unread (http.Body resp)))) = "" ->
     msg = ("spotify: unexpected HTTP " ++ fmt_d (http.StatusCode resp) ++ ": "
              ++ http.StatusText (http.StatusCode resp) ++ " (empty error)")%string /\
     contains msg (fmt_d (http.StatusCode resp)) /\
     contains msg (http.StatusText (http.StatusCode resp))).
Proof.
  apply (decoder_message_not_empty (fun _ : string => (mkError "" 0, Nil))
           (http.mkResponse 414 (http.mkReader "{}" Nil))).
  - simpl. lia.
  - reflexivity.
Defined.

(** C5: for every response with a failure status and an empty body, the
    decoder returns an error whose message holds the status code in
    decimal and its reason phrase; for status 403 the message is
    [spotify: HTTP 403: Forbidden (body empty)]. *)
Theorem empty_body_message
  (json_Decode : string -> Error * error) (resp : http.Response) :
  ~ 200 <= http.StatusCode resp <= 299 ->
  http.Body resp = http.mkReader "" Nil ->
  exists msg,
    fst (ProcessResponse json_Decode resp) = errorString msg /\
    contains msg (fmt_d (http.StatusCode resp)) /\
    contains msg (http.StatusText (http.StatusCode resp)) /\
    (http.StatusCode resp = 403 ->
     msg = "spotify: HTTP 403: Forbidden (body empty)" /\
     contains msg "403" /\ contains msg "Forbidden").
Proof.
  intros Hfail Hbody. rewrite (ProcessResponse_failure json_Decode resp Hfail).
  cbv zeta. rewrite Hbody. cbn [http.failure http.unread is_nil negb].
  change (String.eqb "" "") with true. cbv iota.
  eexists. split; [reflexivity|]. split; [apply contains_middle|]. split.
  - exists ("spotify: HTTP " ++ fmt_d (http.StatusCode resp) ++ ": ")%string,
      " (body empty)".
    rewrite !append_assoc. reflexivity.
  - intros ->. split; [reflexivity|]. split.
    + exists "spotify: HTTP ", ": Forbidden (body empty)". reflexivity.
    + exists "spotify: HTTP 403: ", " (body empty)". reflexivity.
Qed.

Lemma empty_body_message_witness :
  let dec := fun _ : string => (mkError "" 0, Nil) in
  let resp := http.mkResponse 403 (http.mkReader "" Nil) in
  exists msg,
    fst (ProcessResponse dec resp) = errorString msg /\
    contains msg (fmt_d (http.StatusCode resp)) /\
    contains msg (http.StatusText (http.StatusCode resp)) /\
    (http.StatusCode resp = 403 ->
     msg = "spotify: HTTP 403: Forbidden (body empty)" /\
     contains msg "403" /\ contains msg "Forbidden").
Proof.
  apply (empty_body_message (fun _ : string => (mkError "" 0, Nil))
           (http.mkResponse 403 (http.mkReader "" Nil))).
  - simpl. lia.
  - reflexivity.
Defined.

(** C6: for every response with a failure status and a body that is not
    empty and that the JSON decoder rejects, the decoder returns an error
    whose message holds the length of the body in decimal and the body
    itself, whole: nothing is cut off, whatever the length. *)
Theorem undecodable_body_echoed
  (json_Decode : string -> Error * error) (resp : http.Response) :
  ~ 200 <= http.StatusCode resp <= 299 ->
  http.failure (http.Body resp) = Nil ->
  http.unread (http.Body resp) <> "" ->
  snd (json_Decode (http.unread (http.Body resp))) <> Nil ->
  let body := http.unread (http.Body resp) in
  let len := fmt_d (Z.of_nat (String.length body)) in
  exists msg,
    fst (ProcessResponse json_Decode resp) = errorString msg /\
    msg = ("spotify: couldn't decode error: (" ++ len ++ ") [" ++ body ++ "]")%string /\
    contains msg len /\
    contains msg body /\
    String.length msg = (37 + String.length len + String.length body)%nat.
Proof.
  intros Hfail Hread Hfull Hdec body len.
  rewrite (ProcessResponse_failure json_Decode resp Hfail).
  cbv zeta. rewrite Hread. cbn [is_nil negb]. fold body. fold len.
  destruct (String.eqb_spec body "") as [Hempty|_]; [contradiction|].
  destruct (snd (json_Decode body)) eqn:Herr; [contradiction| | |]; cbn [is_nil negb];
    (eexists; split; [reflexivity|]; split; [reflexivity|];
     split; [apply contains_middle|]; split;
     [ exists ("spotify: couldn't decode error: (" ++ len ++ ") [")%string, "]";
       rewrite !append_assoc; reflexivity
     | rewrite !length_append; simpl; lia ]).
Qed.

Lemma undecodable_body_echoed_witness :
  let dec := fun _ : string =>
    (mkError "" 0, foreignError "*json.SyntaxError"
                     "invalid character 'o' looking for beginning of value") in
  let resp := http.mkResponse 500 (http.mkReader "oops" Nil) in
  exists msg,
    fst (ProcessResponse dec resp) = errorString msg /\
    msg = "spotify: couldn't decode error: (4) [oops]" /\
    contains msg "4" /\
    contains msg "oops" /\
    String.length msg = (37 + 1 + 4)%nat.
Proof.
  apply (undecodable_body_echoed
           (fun _ : string =>
              (mkError "" 0, foreignError "*json.SyntaxError"
                               "invalid character 'o' looking for beginning of value"))
           (http.mkResponse 500 (http.mkReader "oops" Nil))).
  - simpl. lia.
  - reflexivity.
  - discriminate.
  - discriminate.
Defined.

(** Runs of the decoder on the three kinds of failure body, with codecs
    that answer as [encoding/json] does on these bodies. *)
Lemma example_decodings :
  let rejects := fun _ : string =>
    (mkError "" 0, foreignError "*json.SyntaxError"
                     "invalid character 'o' looking for beginning of value") in
  let accepts e := fun _ : string => (e, Nil) in
  fst (ProcessResponse rejects (http.mkResponse 403 (http.mkReader "" Nil)))
    = errorString "spotify: HTTP 403: Forbidden (body empty)" /\
  fst (ProcessResponse rejects (http.mkResponse 500 (http.mkReader "oops" Nil)))
    = errorString "spotify: couldn't decode error: (4) [oops]" /\
  fst (ProcessResponse (accepts (mkError "" 0))
         (http.mkResponse 414 (http.mkReader "{}" Nil)))
    = ErrorValue (mkError "spotify: unexpected HTTP 414: Request URI Too Long (empty error)" 0) /\
  fst (ProcessResponse (accepts (mkError "Invalid access token" 401))
         (http.mkResponse 401 (http.mkReader "{...}" Nil)))
    = ErrorValue (mkError "Invalid access token" 401) /\
  ProcessResponse rejects (http.mkResponse 204 (http.mkReader "" Nil))
    = (Nil, http.mkResponse 204 (http.mkReader "" Nil)).
Proof. vm_compute. repeat split. Qed.

(** C3, as stated, fails: a 403 with an empty body is neither 2xx nor 429,
    and the error produced is a message-only error, not a structured one;
    on a body the codec rejects, the error does not carry the status in any
    form. *)
Lemma failure_error_not_structured :
  let resp := http.mkResponse 403 (http.mkReader "" Nil) in
  let resp' := http.mkResponse 500 (http.mkReader "oops" Nil) in
  (~ 200 <= http.StatusCode resp <= 299) /\
  http.StatusCode resp <> 429 /\
  (forall json_Decode,
     fst (ProcessResponse json_Decode resp)
       = errorString "spotify: HTTP 403: Forbidden (body empty)") /\
  (forall json_Decode, snd (json_Decode "oops") <> Nil ->
     fst (ProcessResponse json_Decode resp')
       = errorString "spotify: couldn't decode error: (4) [oops]") /\
  (forall msg e, errorString msg <> ErrorValue e).
Proof.
  cbv zeta. split; [simpl; lia|]. split; [discriminate|]. split; [|split].
  - intros dec. rewrite ProcessResponse_failure by (simpl; lia). reflexivity.
  - intros dec Hdec. rewrite ProcessResponse_failure by (simpl; lia).
    cbv zeta. cbn [http.failure http.unread http.Body is_nil negb].
    change (String.eqb "oops" "") with false. cbv iota.
    destruct (snd (dec "oops")); [contradiction| | |]; reflexivity.
  - discriminate.
Qed.

(** C3 (amended): for every completed call whose response status is
    neither 2xx nor 429, the retry transport returns the response at once,
    without sleeping or sending again, and the decoder produces exactly one
    error, never nil: the structured error, with the status and the message
    of the envelope, when the body is not empty and decodes; a message-only
    error when the body is empty or does not decode; the error of the read
    when the body cannot be read.  And every error of the wrapped transport
    is returned as it is, response and error unchanged, without a retry. *)
Theorem failure_without_retry {Request : Type} (req : Request)
  (json_Decode : string -> Error * error)
  (r : stdhttp.Response) (resp : http.Response) :
  http.StatusCode resp = stdhttp.StatusCode r ->
  ~ 200 <= stdhttp.StatusCode r <= 299 ->
  stdhttp.StatusCode r <> 429 ->
  let body := http.unread (http.Body resp) in
  let produced := fst (ProcessResponse json_Decode resp) in
  (exists k,
     starts_with (RoundTrip req) (Base_RoundTrip req) k /\
     returns_at_once (k (Some r, Nil)) (Some r, Nil)) /\
  produced <> Nil /\
  (http.failure (http.Body resp) = Nil -> body <> "" ->
   snd (json_Decode body) = Nil ->
   exists e, produced = ErrorValue e /\
             Status e = Status (fst (json_Decode body)) /\
             Message e <> "" /\
             (Message (fst (json_Decode body)) <> "" -> e = fst (json_Decode body))) /\
  (http.failure (http.Body resp) = Nil ->
   body = "" \/ snd (json_Decode body) <> Nil ->
   exists msg, produced = errorString msg) /\
  (http.failure (http.Body resp) <> Nil ->
   produced = http.failure (http.Body resp)) /\
  (forall (resp0 : option stdhttp.Response) (err : error), err <> Nil ->
   exists k,
     starts_with (RoundTrip req) (Base_RoundTrip req) k /\
     returns_at_once (k (resp0, err)) (resp0, err)).
Proof.
  intros Hsame Hfail H429 body produced.
  assert (Hfail' : ~ 200 <= http.StatusCode resp <= 299) by (rewrite Hsame; exact Hfail).
  assert (Hprod : produced = _) by exact (ProcessResponse_failure json_Decode resp Hfail').
  cbv zeta in Hprod. fold body in Hprod.
  split.
  { apply RoundTrip_returns; [|discriminate].
    intros (r' & Heq & Hr'). injection Heq as <-. contradiction. }
  split; [apply ProcessResponse_failure_not_nil; exact Hfail'|].
  split; [|split; [|split]].
  - intros Hread Hfull Hdec. rewrite Hread, Hdec in Hprod. cbn [is_nil negb] in Hprod.
    destruct (String.eqb_spec body "") as [?|_]; [contradiction|].
    destruct (String.eqb_spec (Message (fst (json_Decode body))) "") as [Hmsg|Hmsg];
      eexists; (split; [exact Hprod|]); cbn [Status Message].
    + split; [reflexivity|]. split; [apply append_cons_not_empty|].
      intros Hne. contradiction.
    + split; [reflexivity|]. split; [exact Hmsg|]. reflexivity.
  - intros Hread Hcase. rewrite Hread in Hprod. cbn [is_nil negb] in Hprod.
    destruct (String.eqb_spec body "") as [Hempty|Hfull].
    + eexists. exact Hprod.
    + destruct Hcase as [?|Hdec]; [contradiction|].
      destruct (snd (json_Decode body)); [contradiction| | |];
        cbn [is_nil negb] in Hprod; eexists; exact Hprod.
  - intros Hread. destruct (http.failure (http.Body resp)); [contradiction| | |];
      exact Hprod.
  - intros resp0 err Herr. apply RoundTrip_returns.
    + intros (r' & Heq & _). congruence.
    + intros Heq. congruence.
Qed.

Lemma failure_without_retry_witness :
  let json_Decode := fun _ : string => (mkError "Invalid access token" 401, Nil) in
  let r := stdhttp.mkResponse 401 ∅ in
  let resp := http.mkResponse 401 (http.mkReader "{...}" Nil) in
  let body := http.unread (http.Body resp) in
  let produced := fst (ProcessResponse json_Decode resp) in
  (exists k,
     starts_with (RoundTrip tt) (Base_RoundTrip tt) k /\
     returns_at_once (k (Some r, Nil)) (Some r, Nil)) /\
  produced <> Nil /\
  (http.failure (http.Body resp) = Nil -> body <> "" ->
   snd (json_Decode body) = Nil ->
   exists e, produced = ErrorValue e /\
             Status e = Status (fst (json_Decode body)) /\
             Message e <> "" /\
             (Message (fst (json_Decode body)) <> "" -> e = fst (json_Decode body))) /\
  (http.failure (http.Body resp) = Nil ->
   body = "" \/ snd (json_Decode body) <> Nil ->
   exists msg, produced = errorString msg) /\
  (http.failure (http.Body resp) <> Nil ->
   produced = http.failure (http.Body resp)) /\
  (forall (resp0 : option stdhttp.Response) (err : error), err <> Nil ->
   exists k,
     starts_with (RoundTrip tt) (Base_RoundTrip tt) k /\
     returns_at_once (k (resp0, err)) (resp0, err)).
Proof.
  apply (failure_without_retry tt
           (fun _ : string => (mkError "Invalid access token" 401, Nil))
           (stdhttp.mkResponse 401 ∅)
           (http.mkResponse 401 (http.mkReader "{...}" Nil))).
  - reflexivity.
  - simpl. lia.
  - discriminate.
Defined.

(* ===================================================================== *)
(** * The library batch calls *)
(* ===================================================================== *)

Section LibraryFacts.

Context {Ctx : Type}.
Variable toStringSlice : list ID -> list string.

Implicit Types (ctx : Ctx) (ids : list ID).

Lemma batch_size_check ids :
  (Z.of_nat (List.length ids) =? 0) || (Z.of_nat (List.length ids) >? 50)
  = Nat.eqb (List.length ids) 0 || Nat.ltb 50 (List.length ids).
Proof.
  destruct (Z.eqb_spec (Z.of_nat (List.length ids)) 0);
    destruct (Nat.eqb_spec (List.length ids) 0); try lia; simpl; try reflexivity.
  destruct (Z.gtb_spec (Z.of_nat (List.length ids)) 50);
    destruct (Nat.ltb_spec 50 (List.length ids)); try lia; reflexivity.
Qed.

Lemma libraryContains_spec ctx (typ : string) ids :
  if Nat.eqb (List.length ids) 0 || Nat.ltb 50 (List.length ids) then
    returns_at_once (libraryContains toStringSlice ctx typ ids)
      ([], errorString "spotify: supports 1 to 50 IDs per call")
  else
    exists k,
      starts_with (libraryContains toStringSlice ctx typ ids)
        (Send_JSON_bools ctx
           (http.NewRequest http.Get ["me"; typ; "contains"]
              [("ids", strings_Join (toStringSlice ids) ",")])) k.
Proof.
  unfold libraryContains. cbv zeta. rewrite batch_size_check.
  destruct (Nat.eqb (List.length ids) 0 || Nat.ltb 50 (List.length ids)).
  - unfold returns_at_once. reflexivity.
  - eexists. unfold starts_with. rewrite bind_trigger. reflexivity.
Qed.

Lemma modifyLibrary_spec ctx (typ : string) (add : bool) ids :
  if Nat.eqb (List.length ids) 0 || Nat.ltb 50 (List.length ids) then
    returns_at_once (modifyLibrary toStringSlice ctx typ add ids)
      (errorString "spotify: this call supports 1 to 50 IDs per call")
  else
    exists k,
      starts_with (modifyLibrary toStringSlice ctx typ add ids)
        (Send ctx
           (http.NewRequest (if add then http.Put else http.Delete) ["me"; typ]
              [("ids", strings_Join (toStringSlice ids) ",")])) k.
Proof.
  unfold modifyLibrary. cbv zeta. rewrite batch_size_check.
  destruct (Nat.eqb (List.length ids) 0 || Nat.ltb 50 (List.length ids)).
  - unfold returns_at_once. reflexivity.
  - eexists. unfold starts_with. rewrite bind_trigger. reflexivity.
Qed.

End LibraryFacts.

(** C7: each of the six library batch calls, on no ID or on more than 50
    IDs, returns its validation error at once, before any event (no request
    reaches the network); on 1 to 50 IDs its first act is to send the
    request: a GET of [me/<type>/contains], a PUT or a DELETE of
    [me/<type>], with the IDs joined by commas in the [ids] parameter. *)
Theorem library_batch_bounds {Ctx : Type}
  (toStringSlice : list ID -> list string) (ctx : Ctx) (ids : list ID) :
  let joined := strings_Join (toStringSlice ids) "," in
  let request m path := http.NewRequest m path [("ids", joined)] in
  let errContains := errorString "spotify: supports 1 to 50 IDs per call" in
  let errModify := errorString "spotify: this call supports 1 to 50 IDs per call" in
  if Nat.eqb (List.length ids) 0 || Nat.ltb 50 (List.length ids) then
    returns_at_once (UserHasTracks toStringSlice ctx ids) ([], errContains) /\
    returns_at_once (UserHasAlbums toStringSlice ctx ids) ([], errContains) /\
    returns_at_once (AddTracksToLibrary toStringSlice ctx ids) errModify /\
    returns_at_once (RemoveTracksFromLibrary toStringSlice ctx ids) errModify /\
    returns_at_once (AddAlbumsToLibrary toStringSlice ctx ids) errModify /\
    returns_at_once (RemoveAlbumsFromLibrary toStringSlice ctx ids) errModify
  else
    (exists k, starts_with (UserHasTracks toStringSlice ctx ids)
       (Send_JSON_bools ctx (request http.Get ["me"; "tracks"; "contains"])) k) /\
    (exists k, starts_with (UserHasAlbums toStringSlice ctx ids)
       (Send_JSON_bools ctx (request http.Get ["me"; "albums"; "contains"])) k) /\
    (exists k, starts_with (AddTracksToLibrary toStringSlice ctx ids)
       (Send ctx (request http.Put ["me"; "tracks"])) k) /\
    (exists k, starts_with (RemoveTracksFromLibrary toStringSlice ctx ids)
       (Send ctx (request http.Delete ["me"; "tracks"])) k) /\
    (exists k, starts_with (AddAlbumsToLibrary toStringSlice ctx ids)
       (Send ctx (request http.Put ["me"; "albums"])) k) /\
    (exists k, starts_with (RemoveAlbumsFromLibrary toStringSlice ctx ids)
       (Send ctx (request http.Delete ["me"; "albums"])) k).
Proof.
  cbv beta zeta.
  pose proof (libraryContains_spec toStringSlice ctx "tracks" ids) as HT.
  pose proof (libraryContains_spec toStringSlice ctx "albums" ids) as HA.
  pose proof (modifyLibrary_spec toStringSlice ctx "tracks" true ids) as HTa.
  pose proof (modifyLibrary_spec toStringSlice ctx "tracks" false ids) as HTr.
  pose proof (modifyLibrary_spec toStringSlice ctx "albums" true ids) as HAa.
  pose proof (modifyLibrary_spec toStringSlice ctx "albums" false ids) as HAr.
  unfold UserHasTracks, UserHasAlbums, AddTracksToLibrary,
    RemoveTracksFromLibrary, AddAlbumsToLibrary, RemoveAlbumsFromLibrary.
  destruct (Nat.eqb (List.length ids) 0 || Nat.ltb 50 (List.length ids));
    repeat (split; [assumption|]); assumption.
Qed.

Lemma library_batch_bounds_witness :
  let ids51 := List.repeat "4iV5W9uYEdYUVa79Axb7Rh" 51 in
  let ids50 := List.repeat "4iV5W9uYEdYUVa79Axb7Rh" 50 in
  (returns_at_once (UserHasTracks id tt ids51)
     ([], errorString "spotify: supports 1 to 50 IDs per call") /\
   returns_at_once (RemoveAlbumsFromLibrary id tt [])
     (errorString "spotify: this call supports 1 to 50 IDs per call")) /\
  ((exists k, starts_with (UserHasTracks id tt ["4iV5W9uYEdYUVa79Axb7Rh"])
      (Send_JSON_bools tt
         (http.NewRequest http.Get ["me"; "tracks"; "contains"]
            [("ids", "4iV5W9uYEdYUVa79Axb7Rh")])) k) /\
   (exists k, starts_with (AddAlbumsToLibrary id tt ids50)
      (Send tt
         (http.NewRequest http.Put ["me"; "albums"]
            [("ids", strings_Join ids50 ",")])) k)).
Proof.
  cbv zeta. split; split.
  - exact (proj1 (library_batch_bounds id tt
                    (List.repeat "4iV5W9uYEdYUVa79Axb7Rh" 51))).
  - exact (proj2 (proj2 (proj2 (proj2 (proj2
             (library_batch_bounds id tt [])))))).
  - exact (proj1 (library_batch_bounds id tt ["4iV5W9uYEdYUVa79Axb7Rh"])).
  - exact (proj1 (proj2 (proj2 (proj2 (proj2
             (library_batch_bounds id tt
                (List.repeat "4iV5W9uYEdYUVa79Axb7Rh" 50))))))).
Defined.

(* ===================================================================== *)
(** * The pagination cursor *)
(* ===================================================================== *)

(** C8: on a page without a next endpoint, [advance] returns the "no more
    pages" error at once, before any event (no request reaches the network);
    on a page with a next endpoint its first act is a GET against that
    endpoint, and it returns what the GET answers: the page decoded from
    the response. *)
Theorem advance_by_next_endpoint {Ctx T : Type} (ctx : Ctx) (page : Page T) :
  match nextEndpoint page with
  | None => returns_at_once (advance ctx page) (inr ErrNoMorePages)
  | Some endpoint =>
      starts_with (advance ctx page) (GET ctx endpoint) (fun answer => Ret answer)
  end.
Proof.
  unfold advance. destruct (nextEndpoint page) as [endpoint|].
  - unfold starts_with, ITree.trigger. reflexivity.
  - unfold returns_at_once. reflexivity.
Qed.

(* ===================================================================== *)
(** * More on the wait *)
(* ===================================================================== *)

(** X1: the wait is always a whole number of seconds between -2147483648
    and 2147483647: the [int64] product [time.Duration(seconds) *
    time.Second] never wraps around, whatever the header says. *)
Theorem retryDuration_whole_seconds (r : stdhttp.Response) :
  exists seconds : Z,
    -2147483648 <= seconds <= 2147483647 /\
    retryDuration r = seconds * 1000000000 /\
    - 2 ^ 63 < retryDuration r < 2 ^ 63.
Proof.
  rewrite retryDuration_spec, Second_value.
  destruct (decimal_literal _) as [v|].
  - destruct (Z.leb_spec (-2147483648) v); simpl.
    + destruct (Z.leb_spec v 2147483647).
      * exists v. lia.
      * exists 5. lia.
    + exists 5. lia.
  - exists 5. lia.
Qed.

(** X2: the retry transport sleeps for no time at all ([time.Sleep] returns
    at once on a duration that is zero or negative) exactly when the
    [Retry-After] header is a decimal integer between -2147483648 and 0. *)
Theorem retryDuration_no_pause (r : stdhttp.Response) :
  retryDuration r <= 0 <->
  exists v, decimal_literal (stdhttp.Header_Get (stdhttp.Header r) "Retry-After")
              = Some v /\ -2147483648 <= v <= 0.
Proof.
  rewrite retryDuration_spec, Second_value.
  destruct (decimal_literal _) as [v|].
  - destruct (Z.leb_spec (-2147483648) v); simpl.
    + destruct (Z.leb_spec v 2147483647).
      * split; [intros Hle; exists v; split; [reflexivity|lia]|].
        intros (v' & Hv' & Hrange). injection Hv' as <-. lia.
      * split; [lia|]. intros (v' & Hv' & Hrange). injection Hv' as <-. lia.
    + split; [lia|]. intros (v' & Hv' & Hrange). injection Hv' as <-. lia.
  - split; [lia|]. intros (v' & Hv' & _). discriminate.
Qed.

(* ===================================================================== *)
(** * More on the retry transport *)
(* ===================================================================== *)

Section RetryTransportRuns.

Context {Request : Type}.

Implicit Types (req : Request) (r : stdhttp.Response).

(** The loop unfolded once, up to strong bisimulation: the silent step the
    loop takes when it goes round again is kept. *)
Lemma RoundTrip_unfold req :
  exists k : option stdhttp.Response * error ->
             itree (netE Request) (option stdhttp.Response * error),
    eq_itree eq (RoundTrip req) (Vis (Base_RoundTrip req) k) /\
    (forall r, stdhttp.StatusCode r = 429 ->
       eq_itree eq (k (Some r, Nil))
         (Vis (time_Sleep (retryDuration r)) (fun _ => Tau (RoundTrip req)))) /\
    (forall r, stdhttp.StatusCode r <> 429 ->
       eq_itree eq (k (Some r, Nil)) (Ret (Some r, Nil))) /\
    (forall resp err, err <> Nil ->
       eq_itree eq (k (resp, err)) (Ret (resp, err))) /\
    eq_itree eq (k (None, Nil))
      (Vis nil_dereference (fun v : Empty_set => match v with end)).
Proof.
  eexists. split; [|split; [|split; [|split]]].
  - unfold RoundTrip. rewrite unfold_iter. unfold RoundTrip_body at 1.
    rewrite bind_bind, bind_trigger. reflexivity.
  - intros r Hr. cbn. unfold stdhttp.StatusTooManyRequests. rewrite Hr. cbn.
    rewrite bind_bind, bind_trigger.
    apply eqit_Vis. intros []. rewrite bind_ret_l. reflexivity.
  - intros r Hr. cbn. unfold stdhttp.StatusTooManyRequests.
    destruct (Z.eqb_spec (stdhttp.StatusCode r) 429) as [?|_]; [contradiction|].
    rewrite bind_ret_l. reflexivity.
  - intros resp err Herr. cbn.
    destruct err; [contradiction| | |]; cbn; rewrite bind_ret_l; reflexivity.
  - cbn. rewrite bind_bind, bind_trigger. apply eqit_Vis. intros [].
Qed.

(** A run does not tell strongly bisimilar trees apart. *)
Lemma run_script_eq_itree {R : Type} (fuel : nat) :
  forall (t1 t2 : itree (netE Request) R) script,
    eq_itree eq t1 t2 -> run_script fuel t1 script = run_script fuel t2 script.
Proof.
  induction fuel as [|fuel IH]; intros t1 t2 script Heq; [reflexivity|].
  rewrite (itree_eta t2) in Heq. simpl.
  destruct (observe t2) as [res|t2'|X e k2].
  - apply eqitree_inv_Ret_r in Heq. rewrite Heq. reflexivity.
  - apply eqitree_inv_Tau_r in Heq as (t1' & -> & Heq). apply IH. exact Heq.
  - apply eqitree_inv_Vis_r in Heq as (k1 & -> & Hk).
    destruct e as [req|d|].
    + destruct script as [|out script']; [reflexivity|].
      rewrite (IH _ _ script' (Hk out)). reflexivity.
    + rewrite (IH _ _ script (Hk tt)). reflexivity.
    + reflexivity.
Qed.

Lemma run_script_send {R : Type} (fuel : nat) req
  (k : option stdhttp.Response * error -> itree (netE Request) R) out script :
  run_script (S fuel) (Vis (Base_RoundTrip req) k) (out :: script) =
  (Sent req :: fst (run_script fuel (k out) script),
   snd (run_script fuel (k out) script)).
Proof. simpl. destruct (run_script fuel (k out) script). reflexivity. Qed.

Lemma run_script_sleep {R : Type} (fuel : nat) (d : time.Duration)
  (k : unit -> itree (netE Request) R) script :
  run_script (S fuel) (Vis (time_Sleep d) k) script =
  (Slept d :: fst (run_script fuel (k tt) script),
   snd (run_script fuel (k tt) script)).
Proof. simpl. destruct (run_script fuel (k tt) script). reflexivity. Qed.

Lemma run_script_tau {R : Type} (fuel : nat) (t : itree (netE Request) R) script :
  run_script (S fuel) (Tau t) script = run_script fuel t script.
Proof. reflexivity. Qed.

Lemma run_script_ret {R : Type} (fuel : nat) (x : R) script :
  run_script (S fuel) (Ret x : itree (netE Request) R) script = ([], Some x).
Proof. reflexivity. Qed.

Lemma run_RoundTrip_limited (fuel : nat) req r script :
  stdhttp.StatusCode r = 429 ->
  run_script (S (S (S fuel))) (RoundTrip req) ((Some r, Nil) :: script) =
  (Sent req :: Slept (retryDuration r) :: fst (run_script fuel (RoundTrip req) script),
   snd (run_script fuel (RoundTrip req) script)).
Proof.
  intros Hr. destruct (RoundTrip_unfold req) as (k & Hk & Hlim & _).
  rewrite (run_script_eq_itree _ _ _ _ Hk), run_script_send.
  rewrite (run_script_eq_itree _ _ _ _ (Hlim r Hr)), run_script_sleep.
  rewrite run_script_tau. reflexivity.
Qed.

Lemma run_RoundTrip_other (fuel : nat) req (out : option stdhttp.Response * error) script :
  ~ rate_limited out -> out <> (None, Nil) ->
  run_script (S (S fuel)) (RoundTrip req) (out :: script) = ([Sent req], Some out).
Proof.
  intros Hnot Hptr. destruct (RoundTrip_unfold req) as (k & Hk & _ & Hother & Herr & _).
  rewrite (run_script_eq_itree _ _ _ _ Hk), run_script_send.
  assert (Hout : eq_itree eq (k out) (Ret out)).
  { destruct out as [resp err]. destruct (is_nil err) eqn:Hnil.
    - destruct err; try discriminate. destruct resp as [r|]; [|contradiction].
      apply Hother. intros H429. apply Hnot. exists r. split; [reflexivity|exact H429].
    - apply Herr. intros ->. discriminate. }
  rewrite (run_script_eq_itree _ _ _ _ Hout), run_script_ret. reflexivity.
Qed.

Lemma run_RoundTrip_nil (fuel : nat) req script :
  run_script (S (S fuel)) (RoundTrip req) ((None, Nil) :: script)
  = ([Sent req; Panicked], None).
Proof.
  destruct (RoundTrip_unfold req) as (k & Hk & _ & _ & _ & Hnil).
  rewrite (run_script_eq_itree _ _ _ _ Hk), run_script_send.
  rewrite (run_script_eq_itree _ _ _ _ Hnil). reflexivity.
Qed.

Lemma run_RoundTrip_short (fuel : nat) req script :
  (fuel <= 1)%nat \/ script = [] ->
  snd (run_script fuel (RoundTrip req) script) = None /\
  (fst (run_script fuel (RoundTrip req) script) = [] \/
   fst (run_script fuel (RoundTrip req) script) = [Sent req]).
Proof.
  intros Hshort. destruct (RoundTrip_unfold req) as (k & Hk & _).
  rewrite (run_script_eq_itree _ _ _ _ Hk).
  destruct fuel as [|fuel]; [simpl; auto|]. simpl.
  destruct script as [|out script]; [simpl; auto|].
  destruct Hshort as [Hfuel|?]; [|discriminate].
  assert (fuel = 0%nat) as -> by lia. simpl. auto.
Qed.

Lemma run_RoundTrip_limited_2 req r script :
  stdhttp.StatusCode r = 429 ->
  run_script 2 (RoundTrip req) ((Some r, Nil) :: script)
  = ([Sent req; Slept (retryDuration r)], None).
Proof.
  intros Hr. destruct (RoundTrip_unfold req) as (k & Hk & Hlim & _).
  rewrite (run_script_eq_itree _ _ _ _ Hk), run_script_send.
  rewrite (run_script_eq_itree _ _ _ _ (Hlim r Hr)), run_script_sleep.
  reflexivity.
Qed.

Lemma answer_kinds (out : option stdhttp.Response * error) :
  rate_limited out \/ out = (None, Nil) \/
  (~ rate_limited out /\ out <> (None, Nil)).
Proof.
  destruct out as [[r|] err].
  - destruct err;
      try (right; right; split; [intros (r' & Heq & _); discriminate | discriminate]).
    destruct (Z.eq_dec (stdhttp.StatusCode r) 429) as [H429|Hnot].
    + left. exists r. split; [reflexivity | exact H429].
    + right. right. split; [|discriminate].
      intros (r' & Heq & Hr'). injection Heq as ->. contradiction.
  - destruct err; [right; left; reflexivity | | |];
      right; right; (split; [intros (r' & Heq & _); discriminate | discriminate]).
Qed.

(** What every run keeps, whatever the fuel and the script. *)
Lemma run_RoundTrip_invariant req (fuel : nat) :
  forall script,
    Forall (fun o => match o with Sent q => q = req | _ => True end)
      (fst (run_script fuel (RoundTrip req) script)) /\
    (forall out, snd (run_script fuel (RoundTrip req) script) = Some out ->
       In out script /\ ~ rate_limited out).
Proof.
  induction fuel as [fuel IH] using lt_wf_ind. intros script.
  destruct (le_lt_dec fuel 1) as [Hsmall|Hbig].
  { destruct (run_RoundTrip_short fuel req script (or_introl Hsmall)) as [-> [-> | ->]];
      split; try discriminate; repeat constructor. }
  destruct script as [|out script].
  { destruct (run_RoundTrip_short fuel req [] (or_intror eq_refl)) as [-> [-> | ->]];
      split; try discriminate; repeat constructor. }
  destruct fuel as [|[|fuel]]; try lia.
  destruct (answer_kinds out) as [(r & -> & Hr) | [-> | [Hnot Hptr]]].
  - destruct fuel as [|fuel].
    + rewrite run_RoundTrip_limited_2 by exact Hr.
      split; [repeat constructor | discriminate].
    + rewrite run_RoundTrip_limited by exact Hr. cbn [fst snd].
      destruct (IH fuel ltac:(lia) script) as [Hobs Hres].
      split; [repeat constructor; exact Hobs|].
      intros out Hout. destruct (Hres out Hout) as [Hin Hnl].
      split; [right; exact Hin | exact Hnl].
  - rewrite run_RoundTrip_nil. split; [repeat constructor | discriminate].
  - rewrite run_RoundTrip_other by assumption. cbn [fst snd].
    split; [repeat constructor|].
    intros out' Hout. injection Hout as <-. split; [left; reflexivity | exact Hnot].
Qed.

End RetryTransportRuns.

(** X3: whatever the wrapped transport does, the retry transport never hands
    a rate-limited answer (status 429 without an error) to its caller: no
    leaf of its tree is such an answer. *)
Theorem RoundTrip_never_returns_429 {Request : Type} (req : Request)
  (out : option stdhttp.Response * error) :
  Leaf out (RoundTrip req) -> ~ rate_limited out.
Proof.
  unfold RoundTrip.
  apply (Leaf_iter_inv (RoundTrip_body req) tt (fun _ => True)
           (fun out => ~ rate_limited out)); [|exact I].
  intros [] lr _ Hleaf. unfold RoundTrip_body in Hleaf.
  apply Leaf_bind_inv in Hleaf as ([resp err] & _ & Hleaf).
  destruct (is_nil err) eqn:Hnil.
  - destruct resp as [r|].
    + unfold stdhttp.StatusTooManyRequests in Hleaf.
      destruct (Z.eqb_spec (stdhttp.StatusCode r) 429) as [H429|Hnot].
      * apply Leaf_bind_inv in Hleaf as ([] & _ & Hleaf).
        apply Leaf_Ret_inv in Hleaf. subst lr. exact I.
      * apply Leaf_Ret_inv in Hleaf. subst lr. cbn.
        intros (r' & Heq & Hr'). injection Heq as <- _. contradiction.
    + apply Leaf_bind_inv in Hleaf as ([] & _ & _).
  - apply Leaf_Ret_inv in Hleaf. subst lr. cbn.
    intros (r' & Heq & _). injection Heq as _ ->. discriminate.
Qed.

Lemma RoundTrip_never_returns_429_witness :
  ~ rate_limited (Some (stdhttp.mkResponse 503 ∅), Nil).
Proof.
  apply (RoundTrip_never_returns_429 tt).
  destruct (RoundTrip_first_step tt) as (k & Hk & _ & Hother & _).
  rewrite Hk.
  apply Leaf_Vis with (x := (Some (stdhttp.mkResponse 503 ∅), Nil)).
  rewrite Hother by discriminate. apply Leaf_Ret.
Defined.

(** X4: against a wrapped transport that answers 429 a number of times and
    then otherwise (any other status, or an error), the retry transport
    returns that first other answer, response and error as they came; before
    it, the transport was sent the same request once per answer, and each
    429 was followed by one sleep of its [retryDuration]. *)
Theorem RoundTrip_returns_first_other_answer {Request : Type} (req : Request)
  (limited : list stdhttp.Response) (final : option stdhttp.Response * error)
  (rest : list (option stdhttp.Response * error)) (fuel : nat) :
  Forall (fun r => stdhttp.StatusCode r = 429) limited ->
  ~ rate_limited final -> final <> (None, Nil) ->
  (3 * List.length limited + 2 <= fuel)%nat ->
  run_script fuel (RoundTrip req)
    (List.map (fun r => (Some r, Nil)) limited ++ final :: rest)%list
  = ((List.flat_map (fun r => [Sent req; Slept (retryDuration r)]) limited
        ++ [Sent req])%list,
     Some final).
Proof.
  intros Hlim Hnot Hptr. revert fuel.
  induction Hlim as [|r limited Hr Hlim IH]; intros fuel Hfuel; simpl in *.
  - destruct fuel as [|[|fuel]]; try lia.
    apply run_RoundTrip_other; assumption.
  - destruct fuel as [|[|[|fuel]]]; try lia.
    rewrite run_RoundTrip_limited by exact Hr.
    rewrite IH by lia. reflexivity.
Qed.

Lemma RoundTrip_returns_first_other_answer_witness :
  let limited v := stdhttp.mkResponse 429 (<["Retry-After" := [v]]> ∅) in
  let final := (Some (stdhttp.mkResponse 404 ∅), Nil) in
  run_script 8 (RoundTrip tt)
    (List.map (fun r => (Some r, Nil)) [limited "1"; limited "30"] ++ final :: [])%list
  = ((List.flat_map (fun r => [Sent tt; Slept (retryDuration r)])
        [limited "1"; limited "30"] ++ [Sent tt])%list,
     Some final).
Proof.
  apply (RoundTrip_returns_first_other_answer tt
           [stdhttp.mkResponse 429 (<["Retry-After" := ["1"]]> ∅);
            stdhttp.mkResponse 429 (<["Retry-After" := ["30"]]> ∅)]
           (Some (stdhttp.mkResponse 404 ∅), Nil) [] 8).
  - repeat constructor.
  - intros (r & Heq & Hr). injection Heq as <-. discriminate.
  - discriminate.
  - simpl. lia.
Defined.

(** X5: in every run, however long and against whatever answers, every
    request the retry transport sends is the request it was given; a result,
    if there is one, is one of the answers of the wrapped transport and is
    not rate-limited; and there is no result as long as every answer is a
    429: the number of retries has no bound. *)
Theorem RoundTrip_run_invariant {Request : Type} (req : Request) (fuel : nat)
  (script : list (option stdhttp.Response * error)) :
  Forall (fun o => match o with Sent q => q = req | _ => True end)
    (fst (run_script fuel (RoundTrip req) script)) /\
  (forall out, snd (run_script fuel (RoundTrip req) script) = Some out ->
     In out script /\ ~ rate_limited out) /\
  (Forall rate_limited script ->
   snd (run_script fuel (RoundTrip req) script) = None).
Proof.
  destruct (run_RoundTrip_invariant req fuel script) as [Hobs Hres].
  split; [exact Hobs|]. split; [exact Hres|].
  intros Hall.
  destruct (snd (run_script fuel (RoundTrip req) script)) as [out|] eqn:Hout;
    [|reflexivity].
  destruct (Hres out eq_refl) as [Hin Hnot].
  rewrite Forall_forall in Hall. exfalso. apply Hnot. apply Hall.
  apply list_elem_of_In. exact Hin.
Qed.

(* ===================================================================== *)
(** * The playlist calls *)
(* ===================================================================== *)

(** The loop over a slice of the right length, entered after [done] has
    been filled: no index is out of range and the rest is filled in order. *)
Lemma fill_track_URIs_spec (trackIDs : list ID) :
  forall done : list string,
    fill_track_URIs (List.length done) trackIDs
      (done ++ replicate (List.length trackIDs) "")%list
    = Some (done ++ List.map track_URI trackIDs)%list.
Proof.
  induction trackIDs as [|id rest IH]; intros done; simpl.
  - reflexivity.
  - destruct (decide (List.length done
                      < List.length (done ++ "" :: replicate (List.length rest) ""))%nat)
      as [_|Hout].
    + rewrite insert_app_r_alt by lia.
      replace (List.length done - List.length done)%nat with 0%nat by lia.
      simpl.
      replace (done ++ track_URI id :: replicate (List.length rest) "")%list
        with ((done ++ [track_URI id]) ++ replicate (List.length rest) "")%list
        by (rewrite <- app_assoc; reflexivity).
      replace (S (List.length done)) with (List.length (done ++ [track_URI id])%list)
        by (rewrite length_app; simpl; lia).
      rewrite IH, <- app_assoc. reflexivity.
    + exfalso. apply Hout. rewrite length_app. simpl. lia.
Qed.

Lemma track_URIs_spec (trackIDs : list ID) :
  track_URIs trackIDs = Some (List.map track_URI trackIDs).
Proof. exact (fill_track_URIs_spec trackIDs []). Qed.

Lemma drop_bytes_track_URI (id : ID) : drop_bytes 14 (track_URI id) = id.
Proof. reflexivity. Qed.

Lemma map_drop_track_URI (trackIDs : list ID) :
  List.map (drop_bytes 14) (List.map track_URI trackIDs) = trackIDs.
Proof.
  induction trackIDs as [|id ids IH]; [reflexivity|].
  cbn [List.map]. rewrite IH, drop_bytes_track_URI. reflexivity.
Qed.

Lemma free_of_append (sep : ascii) (a b : string) :
  free_of sep a -> free_of sep b -> free_of sep (a ++ b).
Proof.
  induction a as [|c a IH]; intros Ha Hb; [exact Hb|].
  rewrite append_cons. destruct Ha as [Hc Ha]. split; [exact Hc | now apply IH].
Qed.

Lemma split_on_free (sep : ascii) (s : string) :
  free_of sep s -> split_on sep s = [s].
Proof.
  induction s as [|c s IH]; intros Hs; [reflexivity|].
  destruct Hs as [Hc Hs]. simpl.
  destruct (Ascii.eqb_spec c sep) as [?|_]; [contradiction|].
  rewrite (IH Hs). reflexivity.
Qed.

Lemma split_on_append (sep : ascii) (s rest : string) :
  free_of sep s ->
  split_on sep (s ++ String sep rest) = s :: split_on sep rest.
Proof.
  induction s as [|c s IH]; intros Hs.
  - change ("" ++ String sep rest)%string with (String sep rest). simpl.
    rewrite Ascii.eqb_refl. reflexivity.
  - destruct Hs as [Hc Hs]. rewrite append_cons. simpl.
    destruct (Ascii.eqb_spec c sep) as [?|_]; [contradiction|].
    rewrite (IH Hs). reflexivity.
Qed.

(** A list of strings without commas, joined by commas and cut at the
    commas, is the list again; the empty list is joined to the empty
    string, which is cut into one empty piece. *)
Lemma split_Join (l : list string) :
  l <> [] -> Forall (free_of ",") l ->
  split_on "," (strings_Join l ",") = l.
Proof.
  intros Hne Hfree. induction Hfree as [|s l Hs Hl IH]; [contradiction|].
  destruct l as [|s' l'].
  - simpl. apply split_on_free. exact Hs.
  - change (strings_Join (s :: s' :: l') ",")
      with (s ++ "," ++ strings_Join (s' :: l') ",")%string.
    change ("," ++ strings_Join (s' :: l') ",")%string
      with (String "," (strings_Join (s' :: l') ",")).
    rewrite split_on_append by exact Hs.
    rewrite IH by discriminate. reflexivity.
Qed.

(** X6: for every list of track IDs, of any length, the loop that fills the
    slice of URIs never indexes out of range and leaves no slot empty: the
    URIs are [spotify:track:<id>], as many as the IDs and in their order,
    and the IDs are read back by dropping the 14 bytes of the prefix.
    [AddTracksToPlaylist], [RemoveTracksFromPlaylist] and
    [ReplacePlaylistTracks] send exactly these URIs (no batch size is
    checked before the request): in the body of a POST, in the body of a
    DELETE with an empty snapshot ID, and joined by commas in the [tracks]
    parameter of a PUT. *)
Theorem playlist_track_URIs {Ctx : Type} (ctx : Ctx) (playlistID : ID)
  (trackIDs : list ID) :
  let URIs := List.map track_URI trackIDs in
  track_URIs trackIDs = Some URIs /\
  List.length URIs = List.length trackIDs /\
  List.map (drop_bytes 14) URIs = trackIDs /\
  (exists k, starts_with (AddTracksToPlaylist ctx playlistID trackIDs)
     (Post_URIs ctx ["playlists"; playlistID; "tracks"] URIs) k) /\
  (exists k, starts_with (RemoveTracksFromPlaylist ctx playlistID trackIDs)
     (Delete_tracks ctx ["playlists"; playlistID; "tracks"] (tracks_by_URI URIs) "") k) /\
  (exists k, starts_with (ReplacePlaylistTracks ctx playlistID trackIDs)
     (Send_request ctx
        (http.NewRequest http.Put ["playlists"; playlistID; "tracks"]
           [("tracks", strings_Join URIs ",")])) k).
Proof.
  cbv zeta. split; [apply track_URIs_spec|].
  split; [apply List.length_map|]. split; [apply map_drop_track_URI|].
  unfold AddTracksToPlaylist, RemoveTracksFromPlaylist, ReplacePlaylistTracks,
    removeTracksFromPlaylist.
  rewrite track_URIs_spec. split; [|split].
  - eexists. unfold starts_with. rewrite bind_trigger. reflexivity.
  - eexists. unfold starts_with. rewrite bind_trigger. reflexivity.
  - eexists. unfold starts_with, ITree.trigger. reflexivity.
Qed.

Lemma free_of_track_URI (id : ID) : free_of "," id -> free_of "," (track_URI id).
Proof.
  intros Hid. unfold track_URI. apply free_of_append; [|exact Hid].
  simpl. repeat split; discriminate.
Qed.

(** X7: the IDs handed to [UserFollowsPlaylist] and to
    [ReplacePlaylistTracks] travel in one comma-separated parameter; when
    there is at least one ID and no ID holds a comma, cutting the parameter
    at its commas gives the IDs back, all of them and in order (for the
    tracks, after the URI prefix is dropped). *)
Theorem comma_separated_ids_round_trip {Ctx : Type} (ctx : Ctx)
  (playlistID : ID) (ids : list string) :
  ids <> [] -> Forall (free_of ",") ids ->
  (exists param k,
     starts_with (UserFollowsPlaylist ctx playlistID ids)
       (Send_into_bools ctx
          (http.NewRequest http.Put
             ["playlists"; playlistID; "followers"; "contains"] [("ids", param)])
          (replicate (List.length ids) false)) k /\
     split_on "," param = ids) /\
  (exists param k,
     starts_with (ReplacePlaylistTracks ctx playlistID ids)
       (Send_request ctx
          (http.NewRequest http.Put ["playlists"; playlistID; "tracks"]
             [("tracks", param)])) k /\
     List.map (drop_bytes 14) (split_on "," param) = ids).
Proof.
  intros Hne Hfree. split.
  - exists (strings_Join ids ","). eexists. split.
    + unfold UserFollowsPlaylist, starts_with. cbv zeta.
      rewrite bind_trigger. reflexivity.
    + apply split_Join; assumption.
  - exists (strings_Join (List.map track_URI ids) ","). eexists. split.
    + unfold ReplacePlaylistTracks, starts_with, ITree.trigger.
      rewrite track_URIs_spec. reflexivity.
    + rewrite split_Join.
      * apply map_drop_track_URI.
      * destruct ids; [contradiction | discriminate].
      * clear Hne. induction Hfree as [|id ids Hid Hids IH]; constructor.
        -- apply free_of_track_URI. exact Hid.
        -- exact IH.
Qed.

Lemma comma_separated_ids_round_trip_witness :
  let ids := ["wizzler"; "jmperezperez"] in
  (exists param k,
     starts_with (UserFollowsPlaylist tt "3cEYpjA9oz9GiPac4AsH4n" ids)
       (Send_into_bools tt
          (http.NewRequest http.Put
             ["playlists"; "3cEYpjA9oz9GiPac4AsH4n"; "followers"; "contains"]
             [("ids", param)])
          (replicate (List.length ids) false)) k /\
     split_on "," param = ids) /\
  (exists param k,
     starts_with (ReplacePlaylistTracks tt "3cEYpjA9oz9GiPac4AsH4n" ids)
       (Send_request tt
          (http.NewRequest http.Put ["playlists"; "3cEYpjA9oz9GiPac4AsH4n"; "tracks"]
             [("tracks", param)])) k /\
     List.map (drop_bytes 14) (split_on "," param) = ids).
Proof.
  apply (comma_separated_ids_round_trip tt "3cEYpjA9oz9GiPac4AsH4n"
           ["wizzler"; "jmperezperez"]).
  - discriminate.
  - repeat constructor; discriminate.
Defined.

(** X12: a wrapped transport that answers with neither a response nor an
    error makes the retry transport panic on the nil response, also after
    any number of rate-limited answers: it sends the request, dereferences
    the nil pointer, and returns nothing. *)
Theorem RoundTrip_nil_answer_panics {Request : Type} (req : Request)
  (limited : list stdhttp.Response)
  (rest : list (option stdhttp.Response * error)) (fuel : nat) :
  Forall (fun r => stdhttp.StatusCode r = 429) limited ->
  (3 * List.length limited + 2 <= fuel)%nat ->
  run_script fuel (RoundTrip req)
    (List.map (fun r => (Some r, Nil)) limited ++ (None, Nil) :: rest)%list
  = ((List.flat_map (fun r => [Sent req; Slept (retryDuration r)]) limited
        ++ [Sent req; Panicked])%list,
     None).
Proof.
  intros Hlim. revert fuel.
  induction Hlim as [|r limited Hr Hlim IH]; intros fuel Hfuel; simpl in *.
  - destruct fuel as [|[|fuel]]; try lia. apply run_RoundTrip_nil.
  - destruct fuel as [|[|[|fuel]]]; try lia.
    rewrite run_RoundTrip_limited by exact Hr.
    rewrite IH by lia. reflexivity.
Qed.

Lemma RoundTrip_nil_answer_panics_witness :
  let limited := stdhttp.mkResponse 429 ∅ in
  run_script 5 (RoundTrip tt)
    (List.map (fun r => (Some r, Nil)) [limited] ++ (None, Nil) :: [])%list
  = ((List.flat_map (fun r => [Sent tt; Slept (retryDuration r)]) [limited]
        ++ [Sent tt; Panicked])%list,
     None).
Proof.
  apply (RoundTrip_nil_answer_panics tt [stdhttp.mkResponse 429 ∅] [] 5).
  - repeat constructor.
  - simpl. lia.
Defined.

(* ===================================================================== *)
(** * More on the error decoder *)
(* ===================================================================== *)

Lemma ProcessResponse_failure_leaves
  (json_Decode : string -> Error * error) (resp : http.Response) :
  ~ 200 <= http.StatusCode resp <= 299 ->
  snd (ProcessResponse json_Decode resp)
  = http.mkResponse (http.StatusCode resp)
      (http.mkReader "" (http.failure (http.Body resp))).
Proof.
  intros H. unfold ProcessResponse.
  destruct (http.StatusCode_Type (http.StatusCode resp)) eqn:Hty.
  { apply StatusCode_Type_success in Hty. contradiction. }
  cbn. destruct (negb (is_nil (http.failure (http.Body resp)))); [reflexivity|].
  destruct (Z.of_nat (String.length (http.unread (http.Body resp))) =? 0);
    [reflexivity|].
  destruct (json_Decode (http.unread (http.Body resp))) as [e err]. cbn.
  destruct (negb (is_nil err)); reflexivity.
Qed.

(** X11: on a failure status, when the body is read to its end without an
    error of the read, the decoder uses the body up: the response it leaves
    has the same status and nothing left to read, so a second pass of the
    decoder over it no longer sees the envelope and reports [(body empty)],
    whichever error the first pass made of the body. *)
Theorem decoder_consumes_body
  (json_Decode : string -> Error * error) (resp : http.Response) :
  ~ 200 <= http.StatusCode resp <= 299 ->
  http.failure (http.Body resp) = Nil ->
  let left := snd (ProcessResponse json_Decode resp) in
  http.StatusCode left = http.StatusCode resp /\
  http.unread (http.Body left) = "" /\
  fst (ProcessResponse json_Decode left)
  = errorString ("spotify: HTTP " ++ fmt_d (http.StatusCode resp) ++ ": "
                   ++ http.StatusText (http.StatusCode resp) ++ " (body empty)").
Proof.
  intros Hfail Hread left. unfold left.
  rewrite (ProcessResponse_failure_leaves json_Decode resp Hfail), Hread.
  split; [reflexivity|]. split; [reflexivity|].
  rewrite ProcessResponse_failure by exact Hfail. reflexivity.
Qed.

Lemma decoder_consumes_body_witness :
  let dec := fun _ : string => (mkError "Invalid access token" 401, Nil) in
  let resp := http.mkResponse 401 (http.mkReader "{...}" Nil) in
  let left := snd (ProcessResponse dec resp) in
  http.StatusCode left = http.StatusCode resp /\
  http.unread (http.Body left) = "" /\
  fst (ProcessResponse dec left)
  = errorString ("spotify: HTTP " ++ fmt_d (http.StatusCode resp) ++ ": "
                   ++ http.StatusText (http.StatusCode resp) ++ " (body empty)").
Proof.
  apply (decoder_consumes_body
           (fun _ : string => (mkError "Invalid access token" 401, Nil))
           (http.mkResponse 401 (http.mkReader "{...}" Nil))).
  - simpl. lia.
  - reflexivity.
Defined.

(* ===================================================================== *)
(** * The client options and the token *)
(* ===================================================================== *)

Section ClientOptionFacts.

Context {Token : Type}.

Implicit Types (c : Client Token) (opts : list (ClientOption Token)).

Lemma own_option_transport c (opt : ClientOption Token) :
  own_option opt ->
  (opt = WithRetry /\ is_retryTransport (Transport (opt c)) = true) \/
  Transport (opt c) = Transport c.
Proof.
  intros [-> | [(url & ->) | (lang & ->)]].
  - left. split; reflexivity.
  - right. reflexivity.
  - right. reflexivity.
Qed.

Lemma options_keep_retryTransport opts :
  Forall own_option opts ->
  forall c, is_retryTransport (Transport c) = true ->
  is_retryTransport (Transport (fold_left (fun c opt => opt c) opts c)) = true.
Proof.
  induction 1 as [|opt opts Hopt Hopts IH]; intros c Hc; simpl; [exact Hc|].
  apply IH. destruct (own_option_transport c opt Hopt) as [[_ Hretry] | Hsame].
  - exact Hretry.
  - rewrite Hsame. exact Hc.
Qed.

Lemma options_with_WithRetry opts :
  Forall own_option opts -> In WithRetry opts ->
  forall c,
  is_retryTransport (Transport (fold_left (fun c opt => opt c) opts c)) = true.
Proof.
  induction 1 as [|opt opts Hopt Hopts IH]; intros Hin c; simpl; [contradiction|].
  destruct Hin as [-> | Hin].
  - apply options_keep_retryTransport; [exact Hopts | reflexivity].
  - apply IH. exact Hin.
Qed.

Lemma options_without_WithRetry opts :
  Forall own_option opts -> ~ In WithRetry opts ->
  forall c, Transport (fold_left (fun c opt => opt c) opts c) = Transport c.
Proof.
  induction 1 as [|opt opts Hopt Hopts IH]; intros Hnot c; simpl; [reflexivity|].
  rewrite IH by (intros Hin; apply Hnot; right; exact Hin).
  destruct (own_option_transport c opt Hopt) as [[-> _] | Hsame].
  - exfalso. apply Hnot. left. reflexivity.
  - exact Hsame.
Qed.

End ClientOptionFacts.

(** X8: a client made by [New] with the options of this package gives its
    token only if [WithRetry] is not among them.  With [WithRetry], the
    transport of the base client is the retry transport, not the
    [*oauth2.Transport] it wraps, and [Token] always fails with "client not
    backed by oauth2 transport"; without it, the transport is the one of the
    HTTP client given, and [Token] answers what its token source answers:
    the token and no error, or the error and no token. *)
Theorem Token_through_options {Token : Type}
  (transport : RoundTripper Token) (opts : list (ClientOption Token)) :
  Forall own_option opts ->
  (In WithRetry opts ->
   Client_Token (New transport opts)
   = (None, errorString "spotify: client not backed by oauth2 transport")) /\
  (~ In WithRetry opts ->
   Transport (New transport opts) = transport /\
   forall t err, transport = oauth2_Transport (t, err) ->
     Client_Token (New transport opts)
     = if negb (is_nil err) then (None, err) else (t, Nil)).
Proof.
  intros Hown. split.
  - intros Hin. unfold Client_Token, New.
    pose proof (options_with_WithRetry opts Hown Hin
                  (mkClient "https://api.spotify.com/v1/" [] transport)) as Hretry.
    destruct (Transport _); try discriminate. reflexivity.
  - intros Hnot.
    assert (Hsame : Transport (New transport opts) = transport)
      by exact (options_without_WithRetry opts Hown Hnot _).
    split; [exact Hsame|].
    intros t err ->. unfold Client_Token. rewrite Hsame. reflexivity.
Qed.

Lemma Token_through_options_witness :
  let source : RoundTripper string := oauth2_Transport (Some "BQDf...", Nil) in
  let opts : list (ClientOption string) :=
    [WithBaseURL "https://staging/"; WithRetry] in
  (In WithRetry opts ->
   Client_Token (New source opts)
   = (None, errorString "spotify: client not backed by oauth2 transport")) /\
  (~ In WithRetry opts ->
   Transport (New source opts) = source /\
   forall t err, source = oauth2_Transport (t, err) ->
     Client_Token (New source opts)
     = if negb (is_nil err) then (None, err) else (t, Nil)).
Proof.
  apply (Token_through_options (oauth2_Transport (Some "BQDf...", Nil))
           [WithBaseURL "https://staging/"; WithRetry]).
  constructor; [|constructor; [|constructor]].
  - right. left. exists "https://staging/". reflexivity.
  - left. reflexivity.
Defined.

(* ===================================================================== *)
(** * New releases *)
(* ===================================================================== *)

(** X9: when the response of [NewReleases] decodes to an object without an
    [albums] member, or with an [albums] member that is JSON null, the call
    neither returns a page nor an error: it dereferences the nil pointer the
    map lookup gives, and panics. *)
Theorem NewReleases_without_albums
  {Ctx RequestOption RawMessage SimpleAlbumPage : Type}
  (urlParams : list RequestOption -> gmap string (list string))
  (json_Unmarshal : RawMessage -> SimpleAlbumPage * error)
  (ctx : Ctx) (opts : list RequestOption)
  (objmap : gmap string (option RawMessage)) :
  objmap !! "albums" = None \/ objmap !! "albums" = Some None ->
  exists k,
    starts_with (NewReleases urlParams json_Unmarshal ctx opts)
      (Get_JSON_objmap ctx ["browse"; "new-releases"] (urlParams opts)) k /\
    eutt eq (k (objmap, Nil))
      (Vis nil_pointer_dereference (fun v : Empty_set => match v with end)).
Proof.
  intros Hmissing. eexists. split.
  - unfold NewReleases, starts_with. rewrite bind_trigger. reflexivity.
  - cbn. destruct Hmissing as [-> | ->];
      rewrite bind_trigger; apply eqit_Vis; intros [].
Qed.

Lemma NewReleases_without_albums_witness :
  exists k,
    starts_with
      (NewReleases (fun _ : list unit => ∅)
         (fun raw : string => (raw, Nil)) tt [])
      (Get_JSON_objmap tt ["browse"; "new-releases"] ∅) k /\
    eutt eq (k (<["message" := Some "New releases"]> ∅, Nil))
      (Vis nil_pointer_dereference (fun v : Empty_set => match v with end)).
Proof.
  apply (NewReleases_without_albums (fun _ : list unit => ∅)
           (fun raw : string => (raw, Nil)) tt []
           (<["message" := Some "New releases"]> ∅)).
  left. vm_compute. reflexivity.
Defined.

(* ===================================================================== *)
(** * Results and errors *)
(* ===================================================================== *)

(** X10: no call returns a result together with an error.  Whatever the
    API answers, when [libraryContains] returns an error its slice is nil,
    when [AddTracksToPlaylist] returns an error its snapshot ID is empty,
    and [NewReleases] returns a page exactly when it returns no error. *)
Theorem result_or_error
  {Ctx RequestOption RawMessage SimpleAlbumPage : Type}
  (toStringSlice : list ID -> list string)
  (urlParams : list RequestOption -> gmap string (list string))
  (json_Unmarshal : RawMessage -> SimpleAlbumPage * error)
  (ctx : Ctx) (typ : string) (playlistID : ID) (ids : list ID)
  (opts : list RequestOption) :
  (forall result err,
     Leaf (result, err) (libraryContains toStringSlice ctx typ ids) ->
     err <> Nil -> result = []) /\
  (forall snapshotID err,
     Leaf (snapshotID, err) (AddTracksToPlaylist ctx playlistID ids) ->
     err <> Nil -> snapshotID = "") /\
  (forall page err,
     Leaf (page, err) (NewReleases urlParams json_Unmarshal ctx opts) ->
     (page = None <-> err <> Nil)).
Proof.
  split; [|split].
  - intros result err Hleaf Herr. unfold libraryContains in Hleaf. cbv zeta in Hleaf.
    destruct ((Z.of_nat (List.length ids) =? 0) || (Z.of_nat (List.length ids) >? 50)).
    + apply Leaf_Ret_inv in Hleaf. congruence.
    + apply Leaf_bind_inv in Hleaf as ([res0 err0] & _ & Hleaf).
      destruct (negb (is_nil err0)) eqn:Hnil; apply Leaf_Ret_inv in Hleaf.
      * congruence.
      * injection Hleaf as -> ->. destruct err0; [contradiction | | |]; discriminate.
  - intros snapshotID err Hleaf Herr. unfold AddTracksToPlaylist in Hleaf.
    rewrite track_URIs_spec in Hleaf.
    apply Leaf_bind_inv in Hleaf as ([snap0 err0] & _ & Hleaf).
    destruct (negb (is_nil err0)) eqn:Hnil; apply Leaf_Ret_inv in Hleaf.
    + congruence.
    + injection Hleaf as -> ->. contradiction.
  - intros page err Hleaf. unfold NewReleases in Hleaf.
    apply Leaf_bind_inv in Hleaf as ([objmap err0] & _ & Hleaf).
    destruct (negb (is_nil err0)) eqn:Hnil.
    + apply Leaf_Ret_inv in Hleaf. injection Hleaf as -> ->.
      split; [|reflexivity]. intros _ ->. discriminate.
    + destruct (objmap !! "albums") as [[raw|]|].
      * destruct (json_Unmarshal raw) as [result err1].
        destruct (negb (is_nil err1)) eqn:Hnil1; apply Leaf_Ret_inv in Hleaf;
          injection Hleaf as -> ->.
        -- split; [|reflexivity]. intros _ ->. discriminate.
        -- split; [discriminate | intros Hne; contradiction].
      * apply Leaf_bind_inv in Hleaf as ([] & _ & _).
      * apply Leaf_bind_inv in Hleaf as ([] & _ & _).
Qed.
